(** * Greyhound session bindings: a shallow embedding

    The development follows [src/session/bindings.cpp] (the v8 glue of a
    Session: [global], [destroy], [files], [read]) and
    [session-handler/addon/read-queries/entwine.cpp] (the cursor of a read
    query over the resolved point ids).

    JavaScript values, thrown C++ exceptions and the v8 callbacks are data
    here: a call of a binding returns the list of observable events it
    produced together with the way it left (returned or threw). *)

From Stdlib Require Import ZArith Ascii Floats.SpecFloat.
From stdpp Require Import base option list strings gmap.

Local Open Scope string_scope.
Local Open Scope list_scope.
Local Open Scope stdpp_scope.

(** ** JavaScript values as the bindings inspect them *)

Module V8.

(** Only the distinctions the bindings test for are kept. *)
#[warnings="-register-all"]
Inductive Value : Type :=
| VUndefined
| VNull
| VBoolean (b : bool)
| VNumber (d : spec_float)
| VString (s : string)
| VArray (elems : list Value)
| VObject (id : nat)
| VFunction (id : nat).

Definition IsUndefined (v : Value) : bool :=
  match v with VUndefined => true | _ => false end.
Definition IsNull (v : Value) : bool :=
  match v with VNull => true | _ => false end.
Definition IsBoolean (v : Value) : bool :=
  match v with VBoolean _ => true | _ => false end.
Definition IsNumber (v : Value) : bool :=
  match v with VNumber _ => true | _ => false end.
Definition IsString (v : Value) : bool :=
  match v with VString _ => true | _ => false end.
Definition IsArray (v : Value) : bool :=
  match v with VArray _ => true | _ => false end.
Definition IsFunction (v : Value) : bool :=
  match v with VFunction _ => true | _ => false end.
(** Arrays and functions are objects for v8. *)
Definition IsObject (v : Value) : bool :=
  match v with VObject _ | VArray _ | VFunction _ => true | _ => false end.

(** [args[i]]: an index past the supplied arguments reads [undefined]. *)
Definition Args := list Value.
Definition at_ (args : Args) (i : nat) : Value := nth i args VUndefined.
Definition Length (args : Args) : nat := length args.

End V8.

Import V8.

(** ** Points, statuses and exceptions *)

(** [entwine::Point]: three doubles. *)
Record Point := mkPoint { x : spec_float; y : spec_float; z : spec_float }.

(** The double [1.0] (mantissa 2^52, exponent -52). *)
Definition one : spec_float := S754_finite false 4503599627370496 (-52).

(** [!d] on a double: true exactly when [d == 0.0], so for both zeros and
  never for a NaN. *)
Definition isZero (d : spec_float) : bool := SFeqb d (S754_zero false).

(** Modelled from the spec: the [Status] class (its header is not part of
  the sources): a numeric code, 0 for success, and a message. *)
Record Status := mkStatus { code : nat; message : string }.

Definition okStatus : Status := mkStatus 0 "".
Definition ok (s : Status) : bool := Nat.eqb (code s) 0.
Definition class5xx (s : Status) : Prop := 500 <= code s < 600.

(** The C++ exceptions the handlers of the bindings tell apart.
  [InvalidQuery] and [WrongQueryType] are the two query exception classes
  named by the handlers; [RuntimeError] is any other [std::runtime_error],
  [StdException] any other [std::exception] (a [std::bad_alloc], say) and
  [Unknown] a thrown value that is not a [std::exception]. *)
Inductive exn : Type :=
| InvalidQuery (what : string)
| WrongQueryType (what : string)
| RuntimeError (what : string)
| StdException (what : string)
| Unknown.

(** Whether a handler [catch (std::runtime_error&)] takes the exception:
  both query exception classes derive from [std::runtime_error]. *)
Definition isRuntimeError (e : exn) : option string :=
  match e with
  | InvalidQuery w | WrongQueryType w | RuntimeError w => Some w
  | StdException _ | Unknown => None
  end.

(** How a synchronous binding leaves: it returns, or an exception escapes
    into the JavaScript caller. *)
Inductive outcome : Type :=
| Returned
| Threw (e : exn).

Definition tab : string := String "009"%char "".

(** ** Shared ownership of a Session

    [std::shared_ptr<Session>]: the heap maps the address of every live
    Session to its use count; a pointer is an address or null. *)

Abbreviation Heap := (gmap nat nat).

Definition use_count (h : Heap) (p : option nat) : nat :=
  match p with
  | Some l => default 0 (h !! l)
  | None => 0
  end.

(** Dereferencing is defined exactly on a non-null pointer to an object
    that still has an owner. *)
Definition alive (h : Heap) (p : option nat) : bool :=
  Nat.ltb 0 (use_count h p).

(** Copying a shared pointer. *)
Definition shared_copy (h : Heap) (p : option nat) : Heap :=
  match p with
  | Some l =>
      match h !! l with
      | Some n => <[l := S n]> h
      | None => h
      end
  | None => h
  end.

(** Dropping one owner: the object is deleted with its last owner. *)
Definition shared_release (h : Heap) (p : option nat) : Heap :=
  match p with
  | Some l =>
      match h !! l with
      | Some (S (S n)) => <[l := S n]> h
      | Some _ => delete l h
      | None => h
      end
  | None => h
  end.

(** The one data member of [Bindings] that the claims involve. *)
Record Bindings := mkBindings { m_session : option nat }.

(** [Bindings::destroy]: [obj->m_session.reset()]. *)
Definition destroy (h : Heap) (obj : Bindings) : Heap * Bindings :=
  (shared_release h (m_session obj), mkBindings None).

(** ** Commands and events of a read *)

(** The arguments of [ReadCommand::create], as [read] passes them. *)
Record CreateCall := mkCreateCall {
  cc_session : option nat;
  cc_schemaString : string;
  cc_filterString : string;
  cc_compress : bool;
  cc_scale : option Point;
  cc_offset : option Point;
  cc_query : Value;
  cc_initCb : Value;
  cc_dataCb : Value
}.

(** [ReadCommand::create] is declared in [commands/read.hpp], outside the
    sources at hand: what it does with a call is a parameter. *)
Inductive created : Type :=
| CreateThrew (e : exn)
| CreateNull
| Created.

(** A command in flight: what it was created from and its status field. *)
Record ReadCommand := mkReadCommand {
  rc_call : CreateCall;
  status : Status
}.

(** The events a read produces. *)
Inductive event : Type :=
| Log (line : string)
| InitCb (s : Status) (total : option nat)
| DataCb (buffer : list Byte.byte) (done : bool)
| AfterWork (s : Status).

Definition isDataCb (e : event) : bool :=
  match e with DataCb _ _ => true | _ => false end.
Definition isInitCb (e : event) : bool :=
  match e with InitCb _ _ => true | _ => false end.
Definition isAfterWork (e : event) : bool :=
  match e with AfterWork _ => true | _ => false end.

(** The events that reach the JavaScript caller: the two callbacks. *)
Definition isCallback (e : event) : bool := isInitCb e || isDataCb e.
Definition callbacks (evs : list event) : list event := filter isCallback evs.

(** The query exceptions: what a client's invalid query raises. *)
Definition clientError (e : exn) : bool :=
  match e with
  | InvalidQuery _ | WrongQueryType _ => true
  | RuntimeError _ | StdException _ | Unknown => false
  end.

(** The bytes of the data callbacks of a trace, concatenated in order. *)
Definition dataBytes (evs : list event) : list Byte.byte :=
  flat_map (fun e => match e with DataCb buffer _ => buffer | _ => [] end) evs.

(** ** The buffer pool *)

(** [const std::size_t numBuffers = 512;] *)
Definition numBuffers : nat := 512.

Module BufferPool.

(** Modelled from the spec: the [BufferPool] class of
    [util/buffer-pool.hpp], which is not among the sources (section 4.6:
    a fixed count of buffers, [acquire] blocks when no buffer is free,
    [release] returns a buffer to the free set; section 3: a buffer is owned
    by exactly one in-flight transfer at a time).  [available] is the free
    set, [held] maps a checked-out buffer to the transfer holding it. *)
Record t := mk {
  available : list nat;
  held : gmap nat nat
}.

Definition create (n : nat) : t := mk (seq 0 n) ∅.

Definition checkedOut (p : t) : nat := size (held p).

Inductive acquired : Type :=
| Blocked
| Got (buffer : nat) (p : t).

(** [acquire] by transfer [who]: with no free buffer the caller waits and
    the pool is as it was. *)
Definition acquire (who : nat) (p : t) : acquired :=
  match available p with
  | [] => Blocked
  | buffer :: rest => Got buffer (mk rest (<[buffer := who]> (held p)))
  end.

(** [release] of [buffer] by its holder [who]; nobody else may release it
    ([None]). *)
Definition release (who buffer : nat) (p : t) : option t :=
  match held p !! buffer with
  | Some owner =>
      if Nat.eqb owner who
      then Some (mk (buffer :: available p) (delete buffer (held p)))
      else None
  | None => None
  end.

(** What the transfers do to the pool, in any interleaving. *)
Inductive op : Type :=
| Acquire (who : nat)
| Release (who buffer : nat).

Definition step (p : t) (o : op) : t :=
  match o with
  | Acquire who =>
      match acquire who p with
      | Got _ p' => p'
      | Blocked => p
      end
  | Release who buffer =>
      match release who buffer p with
      | Some p' => p'
      | None => p
      end
  end.

Definition run (p : t) (ops : list op) : t := foldl step p ops.

(** A pool of [n] buffers in order: every buffer is either free, once, or
    checked out. *)
Definition invariant (n : nat) (p : t) : Prop :=
  NoDup (available p)
  /\ (forall buffer, buffer ∈ available p -> held p !! buffer = None)
  /\ length (available p) + checkedOut p = n.

(** The pool of the process: [BufferPool bufferPool(numBuffers);]. *)
Definition bufferPool : t := create numBuffers.

End BufferPool.

(** ** What the bindings take from outside

    The coercions of v8, the JSON parser and the point reader of entwine,
    and the parts of this repository that are declared in headers outside
    the sources at hand.  On a value that already has the wanted type the
    coercions are the identity. *)

Class Environment := {
  toStringOther : Value -> string;
  numberOther : Value -> spec_float;
  toSizeT : spec_float -> nat;
  Json : Type;
  (** [entwine::parse]: the parsed document, or the exception it throws. *)
  parse : string -> exn + Json;
  (** [parsePoint] of the bindings. *)
  parsePoint : Value -> Point;
  Schema : Type;
  (** [entwine::Reader::getPointData]: the serialized point, or the
      exception it throws. *)
  getPointData : nat -> Schema -> exn + list Byte.byte;
  (** A pooled buffer has room for [maxPoints] serialized points. *)
  maxPoints : nat;
  (** [ReadCommand::create] of [commands/read.hpp]. *)
  ReadCommand_create : CreateCall -> created;
  (** What the resolution of a query yields: the schema used, the
      rasterize flag and the ordered point ids. *)
  resolve : CreateCall -> exn + (Schema * bool * list nat);
  (** [ReadCommand::terminate]. *)
  terminate : ReadCommand -> bool
}.

Section Bindings.

Context {env : Environment}.

(** A C string: the characters before the first NUL. *)
Fixpoint cstring (s : string) : string :=
  match s with
  | EmptyString => EmptyString
  | String.String c rest =>
      if Ascii.eqb c "000"%char then EmptyString
      else String.String c (cstring rest)
  end.


(** The [std::string] built from the [Utf8Value] of [v->ToString()]: the
    string of the value, read through a pointer to characters, so cut at
    its first NUL. *)
Definition ToString (v : Value) : string :=
  cstring (match v with VString s => s | _ => toStringOther v end).

Definition NumberValue (v : Value) : spec_float :=
  match v with VNumber d => d | _ => numberOther v end.

Definition BooleanValue (v : Value) : bool :=
  match v with
  | VBoolean b => b
  | VUndefined | VNull => false
  | VNumber d => negb (isZero d || match d with S754_nan => true | _ => false end)
  | VString s => negb (String.eqb s "")
  | VArray _ | VObject _ | VFunction _ => true
  end.

(** ** Process-wide state and [Bindings::global] *)

(** The file-level variables [stageFactory], [cache], [outerScope] and
    [paths]; a unique pointer is the flag "is set" (and its payload). *)
Record Globals := mkGlobals {
  stageFactory : bool;
  cache : option nat;
  outerScope : option Json;
  paths : list string
}.

Definition noGlobals : Globals := mkGlobals false None None [].

Definition parsePathList (rawArg : Value) : list string :=
  if negb (IsUndefined rawArg) && IsArray rawArg then
    match rawArg with
    | VArray rawArray =>
        flat_map (fun rawValue =>
                    if IsString rawValue then [ToString rawValue] else [])
                 rawArray
    | _ => []
    end
  else [].

(** The local [errMsg] of [global], as the three tests build it. *)
Definition global_errMsg (args : Args) : string :=
  let pathsArg := at_ args 0 in
  let cacheSizeArg := at_ args 1 in
  let arbiterArg := at_ args 2 in
  let errMsg := "" in
  let errMsg := if negb (IsArray pathsArg)
                then errMsg +:+ tab +:+ "'paths' must be an array" else errMsg in
  let errMsg := if negb (IsNumber cacheSizeArg)
                then errMsg +:+ tab +:+ "'cacheSize' must be a number" else errMsg in
  let errMsg := if negb (IsString arbiterArg)
                then errMsg +:+ tab +:+ "'arbiter' must be a string" else errMsg in
  errMsg.

(** [Bindings::global]: the new process state and the way the call left.
    The assignments happen in source order, so an exception of the parser
    leaves [paths] and [cache] already written. *)
Definition global (g : Globals) (args : Args) : Globals * outcome :=
  if negb (Nat.eqb (Length args) 3) then
    (g, Threw (RuntimeError "Wrong number of arguments to global"))
  else if stageFactory g then
    (g, Threw (RuntimeError "Multiple global initializations attempted"))
  else
    let pathsArg := at_ args 0 in
    let cacheSizeArg := at_ args 1 in
    let arbiterArg := at_ args 2 in
    let errMsg := global_errMsg args in
    let g := mkGlobals (stageFactory g) (cache g) (outerScope g)
                       (parsePathList pathsArg) in
    let cacheSize := toSizeT (NumberValue cacheSizeArg) in
    let g := mkGlobals (stageFactory g) (Some cacheSize) (outerScope g)
                       (paths g) in
    let arbiterString := ToString arbiterArg in
    match parse arbiterString with
    | inl e => (g, Threw e)
    | inr json =>
        let g := mkGlobals (stageFactory g) (cache g) (Some json) (paths g) in
        (mkGlobals true (cache g) (outerScope g) (paths g), Returned)
    end.

(** The process state after a sequence of calls of [global]. *)
Definition globalSeq (g : Globals) (calls : list Args) : Globals :=
  foldl (fun g args => fst (global g args)) g calls.

(** ** Scale and offset arguments of [files] and [read] *)

(** The three guarded assignments [if (!scale->c) scale->c = 1]. *)
Definition clampScale (p : Point) : Point :=
  let p := if isZero (x p) then mkPoint one (y p) (z p) else p in
  let p := if isZero (y p) then mkPoint (x p) one (z p) else p in
  let p := if isZero (z p) then mkPoint (x p) (y p) one else p in
  p.


(** [scale] stays a null pointer when the argument is [null]. *)
Definition scaleOf (scaleArg : Value) : option Point :=
  if negb (IsNull scaleArg) then Some (clampScale (parsePoint scaleArg))
  else None.

Definition offsetOf (offsetArg : Value) : option Point :=
  if negb (IsNull offsetArg) then Some (parsePoint offsetArg) else None.

(** What [Bindings::files] hands to [Session::files]. *)
Record FilesCall := mkFilesCall {
  fc_session : option nat;
  fc_search : Json;
  fc_scale : option Point;
  fc_offset : option Point
}.

(** [Bindings::files] up to its call of [Session::files]: the call it
    makes, or the exception of the parser. *)
Definition files (obj : Bindings) (args : Args) : exn + FilesCall :=
  let searchArg := at_ args 0 in
  let scaleArg := at_ args 1 in
  let offsetArg := at_ args 2 in
  let scale := scaleOf scaleArg in
  let offset := offsetOf offsetArg in
  let searchString :=
    if IsString searchArg then ToString searchArg else "" in
  match parse searchString with
  | inl e => inl e
  | inr searchJson => inr (mkFilesCall (m_session obj) searchJson scale offset)
  end.

(** ** The cursor of a read query ([read-queries/entwine.cpp]) *)

(** [EntwineReadQuery] with the members of its base class [ReadQuery] that
    the constructor initialises and the two methods read: the schema, both
    flags and the cursor [index()]. *)
Record EntwineReadQuery := mkQuery {
  m_schema : Schema;
  m_compress : bool;
  m_rasterize : bool;
  m_ids : list nat;
  m_index : nat
}.

Definition index (q : EntwineReadQuery) : nat := m_index q.

Definition numPoints (q : EntwineReadQuery) : nat := length (m_ids q).

Definition eof (q : EntwineReadQuery) : bool :=
  Nat.eqb (index q) (numPoints q).

(** [readPoint]: the bytes copied to [pos], or the exception of the reader.
    [None] stands for [m_ids[index()]] past the end of the vector, where the
    source has no defined behaviour. *)
Definition readPoint (q : EntwineReadQuery) (schema : Schema)
    (rasterize : bool) : option (exn + list Byte.byte) :=
  match m_ids q !! index q with
  | Some id => Some (getPointData id schema)
  | None => None
  end.

(** Decoding a sequence of ids directly, one after the other: the bytes
    obtained and the exception that stopped the decoding, if any. *)
Fixpoint decodeAll (schema : Schema) (ids : list nat)
    : list Byte.byte * option exn :=
  match ids with
  | [] => ([], None)
  | id :: rest =>
      match getPointData id schema with
      | inl e => ([], Some e)
      | inr point =>
          let '(bytes, stopped) := decodeAll schema rest in
          (point ++ bytes, stopped)
      end
  end.

(** ** Streaming through buffers *)

Definition advance (q : EntwineReadQuery) : EntwineReadQuery :=
  mkQuery (m_schema q) (m_compress q) (m_rasterize q) (m_ids q) (S (m_index q)).

Inductive filled : Type :=
| Filled (q : EntwineReadQuery) (buffer : list Byte.byte)
| FillThrew (q : EntwineReadQuery) (buffer : list Byte.byte) (e : exn)
| FillUndefined.

(** Modelled from the spec: [ReadQuery::read], the loop of the base class
    that fills one buffer (section 4.4, step 2: "fill it with as many
    serialized points as fit using the PointCodec"); the base class is not
    among the sources.  It calls [readPoint] and moves the cursor. *)
Fixpoint fill (room : nat) (q : EntwineReadQuery) (buffer : list Byte.byte)
    : filled :=
  match room with
  | 0 => Filled q buffer
  | S room' =>
      if eof q then Filled q buffer
      else
        match readPoint q (m_schema q) (m_rasterize q) with
        | None => FillUndefined
        | Some (inl e) => FillThrew q buffer e
        | Some (inr point) => fill room' (advance q) (buffer ++ point)
        end
  end.

Inductive streamed : Type :=
| StreamDone (evs : list event)
| StreamThrew (evs : list event) (e : exn)
| StreamUndefined
| StreamOutOfFuel.

Definition delivered (ev : event) (s : streamed) : streamed :=
  match s with
  | StreamDone evs => StreamDone (ev :: evs)
  | StreamThrew evs e => StreamThrew (ev :: evs) e
  | StreamUndefined => StreamUndefined
  | StreamOutOfFuel => StreamOutOfFuel
  end.

(** Modelled from the spec: [ReadCommand::read], the streaming loop
    (section 4.4, steps 2 and 3, and its edge case for a failing decode:
    "abort remaining streaming, deliver accumulated buffer if non-empty");
    [commands/read.hpp] is not among the sources.  Each round fills one
    buffer and hands it to the data callback with the end-of-stream flag;
    the loop ends when the cursor reaches the end.  [fuel] bounds the number
    of rounds. *)
Fixpoint stream (fuel : nat) (q : EntwineReadQuery) : streamed :=
  if eof q then StreamDone []
  else
    match fuel with
    | 0 => StreamOutOfFuel
    | S fuel' =>
        match fill maxPoints q [] with
        | Filled q' buffer => delivered (DataCb buffer (eof q')) (stream fuel' q')
        | FillThrew q' buffer e =>
            StreamThrew
              (match buffer with [] => [] | _ => [DataCb buffer true] end) e
        | FillUndefined => StreamUndefined
        end
    end.

(** ** [Bindings::read] *)

Definition setStatus (cmd : ReadCommand) (c : nat) (msg : string)
    : ReadCommand :=
  mkReadCommand (rc_call cmd) (mkStatus c msg).

(** The local [errMsg] of [read], as the four tests build it. *)
Definition read_errMsg (args : Args) : string :=
  let schemaArg := at_ args 0 in
  let filterArg := at_ args 1 in
  let compressArg := at_ args 2 in
  let queryArg := at_ args 5 in
  let errMsg := "" in
  let errMsg := if negb (IsString schemaArg) && negb (IsUndefined schemaArg)
                then errMsg +:+ tab +:+ "'schema' must be a string or undefined"
                else errMsg in
  let errMsg := if negb (IsString filterArg) && negb (IsUndefined filterArg)
                then errMsg +:+ tab +:+ "'schema' must be a string or undefined"
                else errMsg in
  let errMsg := if negb (IsBoolean compressArg)
                then errMsg +:+ tab +:+ "'compress' must be a boolean"
                else errMsg in
  let errMsg := if negb (IsObject queryArg)
                then errMsg +:+ tab +:+ "Invalid query type" else errMsg in
  errMsg.

(** What the synchronous part of [read] leaves behind: the heap, the events
    it produced, the way it left and the command it queued, if any. *)
Record ReadResult := mkReadResult {
  rr_heap : Heap;
  rr_events : list event;
  rr_outcome : outcome;
  rr_queued : option ReadCommand
}.

(** Modelled from the spec: what a successful [ReadCommand::create] (of
    [commands/read.hpp], not among the sources) does to the ownership of the
    Session it is handed: the command holds "an independent, incremented
    reference" (section 3), a copy of the shared pointer. *)
Definition ReadCommand_created (h : Heap) (call : CreateCall) : Heap :=
  shared_copy h (cc_session call).

(** [Bindings::read] up to [uv_queue_work] (lines 328 to 441). *)
Definition read (h : Heap) (obj : Bindings) (args : Args) : ReadResult :=
  let schemaArg := at_ args 0 in
  let filterArg := at_ args 1 in
  let compressArg := at_ args 2 in
  let scaleArg := at_ args 3 in
  let offsetArg := at_ args 4 in
  let queryArg := at_ args 5 in
  let initCbArg := at_ args 6 in
  let dataCbArg := at_ args 7 in
  let errMsg := read_errMsg args in
  if negb (IsFunction initCbArg) then
    mkReadResult h [] (Threw (RuntimeError "Invalid initCb")) None
  else if negb (IsFunction dataCbArg) then
    mkReadResult h [] (Threw (RuntimeError "Invalid dataCb")) None
  else
    let schemaString :=
      if IsString schemaArg then ToString schemaArg else "" in
    let filterString :=
      if IsString filterArg then ToString filterArg else "" in
    let compress := BooleanValue compressArg in
    let scale := scaleOf scaleArg in
    let offset := offsetOf offsetArg in
    if negb (String.eqb errMsg "") then
      mkReadResult h [InitCb (mkStatus 400 errMsg) None] Returned None
    else
      let call :=
        mkCreateCall (m_session obj) schemaString filterString compress
                     scale offset queryArg initCbArg dataCbArg in
      match ReadCommand_create call with
      | CreateThrew e =>
          match isRuntimeError e with
          | Some what =>
              mkReadResult h
                [Log ("Could not create read command: " +:+ what)]
                Returned None
          | None =>
              mkReadResult h
                [Log "Could not create read command - unknown error"]
                Returned None
          end
      | CreateNull => mkReadResult h [] Returned None
      | Created =>
          mkReadResult (ReadCommand_created h call) [] Returned
                       (Some (mkReadCommand call okStatus))
      end.

(** The call of [ReadCommand::create] that [read] makes, if it gets there. *)
Definition read_createCall (obj : Bindings) (args : Args)
    : option CreateCall :=
  if IsFunction (at_ args 6) && IsFunction (at_ args 7)
     && String.eqb (read_errMsg args) "" then
    Some (mkCreateCall (m_session obj)
            (if IsString (at_ args 0) then ToString (at_ args 0) else "")
            (if IsString (at_ args 1) then ToString (at_ args 1) else "")
            (BooleanValue (at_ args 2))
            (scaleOf (at_ args 3)) (offsetOf (at_ args 4))
            (at_ args 5) (at_ args 6) (at_ args 7))
  else None.

(** Modelled from the spec: [ReadCommand::init] (section 4.4, step 1:
    "translate the query specification into an ordered sequence of point
    identifiers"); it builds the read query with its cursor at the start. *)
Definition init (cmd : ReadCommand) : exn + EntwineReadQuery :=
  match resolve (rc_call cmd) with
  | inl e => inl e
  | inr (schema, rasterize, ids) =>
      inr (mkQuery schema (cc_compress (rc_call cmd)) rasterize ids 0)
  end.

(** Modelled from the spec: [doCb(initAsync)], the initialization callback
    "carrying Status plus summary: total point count" (section 4.4). *)
Definition initAsync (cmd : ReadCommand) (query : option EntwineReadQuery)
    : event :=
  InitCb (status cmd)
         (if ok (status cmd) then numPoints <$> query else None).

(** The first half of the worker function (lines 450 to 476): [init] under
    its four handlers. *)
Definition work_init (cmd : ReadCommand)
    : ReadCommand * option EntwineReadQuery * list event :=
  match init cmd with
  | inr query => (cmd, Some query, [])
  | inl (InvalidQuery what) =>
      (setStatus cmd 400 what, None, [Log ("Caught inv query: " +:+ what)])
  | inl (WrongQueryType what) =>
      (setStatus cmd 400 what, None, [Log ("Caught wrong query: " +:+ what)])
  | inl (RuntimeError what) | inl (StdException what) =>
      (setStatus cmd 400 what, None, [Log ("Caught exception: " +:+ what)])
  | inl Unknown =>
      (setStatus cmd 500 "Error during query", None, [Log "Caught unknown"])
  end.

(** The two handlers of the streaming read (lines 489 to 496). *)
Definition read_handler (cmd : ReadCommand) (e : exn) : ReadCommand :=
  match isRuntimeError e with
  | Some what => setStatus cmd 500 what
  | None => setStatus cmd 500 "Error during query"
  end.

(** The second half (lines 483 to 497): the streaming read under its two
    handlers.  [None]: the source has no defined result (no query to read
    from, a read past the ids, or a loop that never ends). *)
Definition work_read (cmd : ReadCommand) (query : option EntwineReadQuery)
    : option (ReadCommand * list event) :=
  match query with
  | None => None
  | Some q =>
      match stream (numPoints q) q with
      | StreamDone evs => Some (cmd, evs)
      | StreamThrew evs e => Some (read_handler cmd e, evs)
      | StreamUndefined | StreamOutOfFuel => None
      end
  end.

(** The worker function queued by [read] (lines 443 to 498).  [safe] runs
    its argument; both bodies catch every exception themselves. *)
Definition work (cmd : ReadCommand) : option (ReadCommand * list event) :=
  let '(cmd, query, logged) := work_init cmd in
  let called := initAsync cmd query in
  if negb (ok (status cmd)) then Some (cmd, logged ++ [called])
  else
    match work_read cmd query with
    | Some (cmd, evs) => Some (cmd, logged ++ [called] ++ evs)
    | None => None
    end.

(** The after-work function (lines 499 to 512): the terminal callback of a
    command.  The event records the status field it finds; deleting the
    command drops its owner's share of the Session. *)
Definition afterWork (h : Heap) (cmd : ReadCommand) : Heap * list event :=
  (shared_release h (cc_session (rc_call cmd)),
   AfterWork (status cmd)
   :: (if terminate cmd then [Log "Read was successfully terminated"]
       else [])).

(** A queued command runs to its end: the worker, then the after-work
    function.  The worker dereferences the command's Session pointer, which
    has to point to a live Session then. *)
Definition runQueued (h : Heap) (cmd : ReadCommand)
    : option (Heap * list event) :=
  if alive h (cc_session (rc_call cmd)) then
    match work cmd with
    | Some (cmd', evs) =>
        let '(h', evs') := afterWork h cmd' in Some (h', evs ++ evs')
    | None => None
    end
  else None.

(** ** A command in flight, step by step

    The same worker and after-work functions cut at their callbacks, so that
    the main thread can act in between.  A command is queued, then streams
    (one round of the loop per step), then has left the worker, then is
    deleted by the after-work function. *)

Inductive phase : Type :=
| Queued (cmd : ReadCommand)
| Streaming (cmd : ReadCommand) (q : EntwineReadQuery)
| Worked (cmd : ReadCommand)
| Terminated.

Definition inFlight (ph : phase) : option ReadCommand :=
  match ph with
  | Queued cmd | Streaming cmd _ | Worked cmd => Some cmd
  | Terminated => None
  end.

Definition stepCommand (ph : phase) : option (phase * list event) :=
  match ph with
  | Queued cmd =>
      let '(cmd, query, logged) := work_init cmd in
      let called := initAsync cmd query in
      if negb (ok (status cmd)) then Some (Worked cmd, logged ++ [called])
      else
        match query with
        | Some q => Some (Streaming cmd q, logged ++ [called])
        | None => None
        end
  | Streaming cmd q =>
      if eof q then Some (Worked cmd, [])
      else
        match fill maxPoints q [] with
        | Filled q' buffer =>
            Some (Streaming cmd q', [DataCb buffer (eof q')])
        | FillThrew _ buffer e =>
            Some (Worked (read_handler cmd e),
                  match buffer with [] => [] | _ => [DataCb buffer true] end)
        | FillUndefined => None
        end
  | Worked cmd =>
      Some (Terminated,
            AfterWork (status cmd)
            :: (if terminate cmd then [Log "Read was successfully terminated"]
                else []))
  | Terminated => Some (Terminated, [])
  end.

(** [n] steps of the command alone. *)
Fixpoint runCommand (n : nat) (ph : phase) : option (phase * list event) :=
  match n with
  | 0 => Some (ph, [])
  | S n' =>
      match stepCommand ph with
      | Some (ph', evs) =>
          match runCommand n' ph' with
          | Some (ph'', evs') => Some (ph'', evs ++ evs')
          | None => None
          end
      | None => None
      end
  end.

(** What happens while a command is in flight: the command takes a step, or
    the main thread calls [destroy] on the Session object. *)
Inductive action : Type :=
| RunCommand
| Destroy.

Record InFlight := mkInFlight {
  if_heap : Heap;
  if_obj : Bindings;
  if_phase : phase
}.

(** A step of the command dereferences its Session pointer, which has to
    point to a live Session; the step that deletes the command gives its
    share of the Session back. *)
Definition act (a : action) (s : InFlight) : option (InFlight * list event) :=
  match a with
  | Destroy =>
      let '(h, obj) := destroy (if_heap s) (if_obj s) in
      Some (mkInFlight h obj (if_phase s), [])
  | RunCommand =>
      match inFlight (if_phase s) with
      | None => Some (s, [])
      | Some cmd =>
          if alive (if_heap s) (cc_session (rc_call cmd)) then
            match stepCommand (if_phase s) with
            | Some (ph', evs) =>
                Some (mkInFlight
                        (match if_phase s with
                         | Worked _ =>
                             shared_release (if_heap s)
                                            (cc_session (rc_call cmd))
                         | _ => if_heap s
                         end)
                        (if_obj s) ph',
                      evs)
            | None => None
            end
          else None
      end
  end.

Fixpoint runSchedule (sched : list action) (s : InFlight)
    : option (InFlight * list event) :=
  match sched with
  | [] => Some (s, [])
  | a :: rest =>
      match act a s with
      | Some (s', evs) =>
          match runSchedule rest s' with
          | Some (s'', evs') => Some (s'', evs ++ evs')
          | None => None
          end
      | None => None
      end
  end.

Fixpoint commandSteps (sched : list action) : nat :=
  match sched with
  | [] => 0
  | RunCommand :: rest => S (commandSteps rest)
  | Destroy :: rest => commandSteps rest
  end.

Definition destroys (sched : list action) : bool :=
  existsb (fun a => match a with Destroy => true | RunCommand => false end)
          sched.

(** The events that follow the terminal callback in a trace. *)
Fixpoint afterTerminal (evs : list event) : list event :=
  match evs with
  | [] => []
  | AfterWork _ :: rest => rest
  | _ :: rest => afterTerminal rest
  end.

(** The owners of the Session at [l] while a command on it is in flight:
    [others], the Session object as long as it holds the Session, and the
    command until it is deleted. *)
Definition owned (l others : nat) (s : InFlight) : Prop :=
  (forall cmd, inFlight (if_phase s) = Some cmd ->
               cc_session (rc_call cmd) = Some l)
  /\ (m_session (if_obj s) = Some l \/ m_session (if_obj s) = None)
  /\ use_count (if_heap s) (Some l)
     = others
       + match m_session (if_obj s) with Some _ => 1 | None => 0 end
       + match inFlight (if_phase s) with Some _ => 1 | None => 0 end.

(** A whole read: the synchronous part, then the queued command, if any. *)
Definition readAll (h : Heap) (obj : Bindings) (args : Args)
    : option (list event * outcome) :=
  let r := read h obj args in
  match rr_queued r with
  | None => Some (rr_events r, rr_outcome r)
  | Some cmd =>
      match runQueued (rr_heap r) cmd with
      | Some (_, evs) => Some (rr_events r ++ evs, rr_outcome r)
      | None => None
      end
  end.

End Bindings.

(** ** A small concrete environment

    Strings are their own JSON, a point is an array of three numbers, the
    reader serializes the id [n] as the one byte [n mod 256]; creating a
    command and resolving a query do what the two arguments say.  The size
    of a number is its integer part; it is meant for finite numbers that
    are not negative, the only ones whose conversion C++ defines. *)

Module Demo.

Definition point (v : Value) : Point :=
  match v with
  | VArray [VNumber a; VNumber b; VNumber c] => mkPoint a b c
  | _ => mkPoint (S754_zero false) (S754_zero false) (S754_zero false)
  end.

Definition decode (failing : option nat) (id : nat) (_ : unit)
    : exn + list Byte.byte :=
  if bool_decide (failing = Some id) then inl (RuntimeError "decode")
  else
    match Byte.of_nat (id mod 256) with
    | Some b => inr [b]
    | None => inr []
    end.

Definition env (c : created) (r : exn + list nat) (failing : option nat)
    : Environment :=
  {| toStringOther := fun v => match v with
                               | VObject _ => "[object Object]"
                               | _ => "null"
                               end;
     numberOther := fun _ => S754_nan;
     toSizeT := fun d => match d with
                         | S754_finite false m e => Z.to_nat (Z.shiftl (Z.pos m) e)
                         | _ => 0
                         end;
     Json := string;
     parse := fun s => if String.eqb s "[object Object]"
                       then inl (RuntimeError "Error during parsing")
                       else inr s;
     parsePoint := point;
     Schema := unit;
     getPointData := decode failing;
     maxPoints := 2;
     ReadCommand_create := fun _ => c;
     resolve := fun _ => match r with
                         | inl e => inl e
                         | inr ids => inr (tt, false, ids)
                         end;
     terminate := fun _ => false |}.

(** A Session object whose Session lives at address 7, owned by it alone. *)
Definition obj : Bindings := mkBindings (Some 7).
Definition heap : Heap := {[ 7 := 1 ]}.

Definition cb1 : Value := VFunction 1.
Definition cb2 : Value := VFunction 2.
Definition two : spec_float := S754_finite false 4503599627370496 (-51).

(** [read(undefined, undefined, false, null, null, {}, cb1, cb2)]. *)
Definition readArgs : Args :=
  [VUndefined; VUndefined; VBoolean false; VNull; VNull; VObject 0; cb1; cb2].




(** The command [read] creates from [readArgs]. *)
Definition call : CreateCall :=
  mkCreateCall (Some 7) "" "" false None None (VObject 0) cb1 cb2.
Definition cmd : ReadCommand := mkReadCommand call okStatus.

(** The command takes a step, the object is destroyed, and the command
    takes the four steps it has left when its query resolves to three ids. *)
Definition schedule : list action :=
  [RunCommand; Destroy; RunCommand; RunCommand; RunCommand; RunCommand].

(** Two transfers take a buffer each, the first gives its buffer back. *)
Definition poolOps : list BufferPool.op :=
  [BufferPool.Acquire 1; BufferPool.Acquire 2; BufferPool.Release 1 0].

(** The environment where commands are created and resolve to no point,
    and the process state after [global(["/data"], 1, "")] in it. *)
Definition env0 : Environment := env Created (inr []) None.
Definition initialized : @Globals env0 :=
  @mkGlobals env0 true (Some 1) (Some "") ["/data"].

(** [global(["/data"], 1, "")] and [global(1, "a", null)]. *)
Definition globalArgs : Args :=
  [VArray [VString "/data"]; VNumber one; VString ""].
Definition badGlobalArgs : Args :=
  [VNumber one; VString "a"; VNull].

End Demo.

(** * The rest of the bindings

    [construct], [create], [info] and [hierarchy] of [bindings.cpp], and
    the launcher script that keeps a component running. *)

(** What a callback is called with: [status.toObject(isolate)], [null] or
    a string. *)
Inductive argument : Type :=
| ArgStatus (s : Status)
| ArgNull
| ArgString (s : string).

(** What [create] and [hierarchy] do that can be observed: a line on
    [std::cout], a call of a JavaScript function. *)
Inductive effect : Type :=
| Print (line : string)
| Call (callback : Value) (argv : list argument).

Definition isCall (e : effect) : bool :=
  match e with Call _ _ => true | Print _ => false end.

Definition calls (effects : list effect) : list effect :=
  filter isCall effects.

(** What the synchronous part of a binding leaves: its effects, the way it
    left and the work it queued, if any. *)
Record Sync (Q : Type) := mkSync {
  sy_effects : list effect;
  sy_outcome : outcome;
  sy_queued : option Q
}.

Arguments mkSync {Q} _ _ _.
Arguments sy_effects {Q} _.
Arguments sy_outcome {Q} _.
Arguments sy_queued {Q} _.

(** [CreateData] as [create] fills it; its status starts as success. *)
Record CreateData {env : Environment} := mkCreateData {
  cd_session : option nat;
  cd_name : string;
  cd_paths : list string;
  cd_outerScope : option Json;
  cd_cache : option nat;
  cd_callback : Value;
  cd_status : Status
}.

Arguments mkCreateData {env} _ _ _ _ _ _ _.

(** A hierarchy command: query, callback, status and result fields. *)
Record HierarchyCommand := mkHierarchyCommand {
  hc_session : option nat;
  hc_query : Value;
  hc_cb : Value;
  hc_status : Status;
  hc_result : string
}.

(** The parts of this repository and of entwine that these bindings call
    and that are declared outside the sources at hand. *)
Class Collaborators {env : Environment} := {
  (** [Session::initialize]: found or not, or the exception it throws. *)
  Session_initialize : CreateData -> exn + bool;
  (** The status [safe] leaves when its argument lets an exception
      through. *)
  safe_status : exn -> Status;
  (** [Session::info] of the Session at an address, styled, or the
      exception it throws (for a Session that is not bound yet, say). *)
  Session_info : nat -> exn + string;
  (** [HierarchyCommand::create]. *)
  HierarchyCommand_create : option nat -> Value -> Value -> created;
  (** [HierarchyCommand::run]: the result, or the exception it throws. *)
  HierarchyCommand_run : HierarchyCommand -> exn + string;
  (** [result()] of a command that has not run to its end. *)
  HierarchyCommand_noResult : string
}.

Section MoreBindings.

Context {env : Environment} {collaborators : Collaborators}.

(** [Bindings::Bindings()] under [Bindings::construct]: both ways of
    calling [construct] end in [new Bindings()], which makes a Session from
    [*stageFactory]; without a stage factory the source has no defined
    behaviour ([None]).  The new Session gets an address no live Session
    has, and the object is its only owner. *)
Definition construct (g : Globals) (h : Heap) : option (Heap * Bindings) :=
  if stageFactory g then
    let l := fresh (dom h) in
    Some (<[l := 1]> h, mkBindings (Some l))
  else None.

(** [Bindings::info]: [obj->m_session->info()] has a defined result on a
    live Session only ([None] otherwise); there it is what [Session::info]
    gives, a string or an exception. *)
Definition info (h : Heap) (obj : Bindings) : option (exn + string) :=
  match m_session obj with
  | Some l => if alive h (Some l) then Some (Session_info l) else None
  | None => None
  end.

(** The local [errMsg] of [create]. *)
Definition create_errMsg (args : Args) : string :=
  let nameArg := at_ args 0 in
  let errMsg := "" in
  let errMsg := if negb (IsString nameArg)
                then errMsg +:+ tab +:+ "'name' must be a string"
                else errMsg in
  errMsg.

(** [Bindings::create] up to [uv_queue_work] (lines 180 to 227). *)
Definition create (g : Globals) (obj : Bindings) (args : Args)
    : Sync CreateData :=
  if negb (Nat.eqb (Length args) 2) then
    mkSync [] (Threw (RuntimeError "Wrong number of arguments to create")) None
  else
    let nameArg := at_ args 0 in
    let cbArg := at_ args 1 in
    let errMsg := create_errMsg args in
    if negb (IsFunction cbArg) then
      mkSync [] (Threw (RuntimeError "Invalid create CB")) None
    else
      let callback := cbArg in
      if negb (Nat.eqb (String.length errMsg) 0) then
        mkSync [Print ("Client error: " +:+ errMsg);
                Call callback [ArgStatus (mkStatus 400 errMsg)]]
               Returned None
      else
        let name := ToString nameArg in
        mkSync [] Returned
               (Some (mkCreateData (m_session obj) name (paths g)
                                   (outerScope g) (cache g) callback
                                   okStatus)).

Definition cd_setStatus (d : CreateData) (s : Status) : CreateData :=
  mkCreateData (cd_session d) (cd_name d) (cd_paths d) (cd_outerScope d)
               (cd_cache d) (cd_callback d) s.

(** The worker function of [create] (lines 231 to 246).  It dereferences
    [createData->session], which has to point to a live Session; otherwise
    the source has no defined behaviour ([None]). *)
Definition create_work (h : Heap) (d : CreateData) : option CreateData :=
  if alive h (cd_session d) then
    match Session_initialize d with
    | inr true => Some d
    | inr false => Some (cd_setStatus d (mkStatus 404 "Not found"))
    | inl e => Some (cd_setStatus d (safe_status e))
    end
  else None.

(** Its after-work function (lines 247 to 265). *)
Definition create_after (d : CreateData) : list effect :=
  [Call (cd_callback d) [ArgStatus (cd_status d)]].

(** A whole [create]: the synchronous part, then the queued work, if
    any, on the heap of Sessions [h]. *)
Definition createAll (g : Globals) (h : Heap) (obj : Bindings) (args : Args)
    : option (list effect * outcome) :=
  let r := create g obj args in
  match sy_queued r with
  | Some d =>
      match create_work h d with
      | Some d' => Some (sy_effects r ++ create_after d', sy_outcome r)
      | None => None
      end
  | None => Some (sy_effects r, sy_outcome r)
  end.

(** The local [errMsg] of [hierarchy]. *)
Definition hierarchy_errMsg (args : Args) : string :=
  let queryArg := at_ args 0 in
  let errMsg := "" in
  let errMsg := if negb (IsObject queryArg)
                then errMsg +:+ tab +:+ "Invalid query type" else errMsg in
  errMsg.

(** [Bindings::hierarchy] up to [uv_queue_work] (lines 516 to 556).  The
    call of [HierarchyCommand::create] stands outside any [try]. *)
Definition hierarchy (obj : Bindings) (args : Args) : Sync HierarchyCommand :=
  let queryArg := at_ args 0 in
  let cbArg := at_ args 1 in
  let errMsg := hierarchy_errMsg args in
  if negb (IsFunction cbArg) then
    mkSync [] (Threw (RuntimeError "Invalid cb")) None
  else
    let query := queryArg in
    let cb := cbArg in
    if negb (String.eqb errMsg "") then
      mkSync [Call cb [ArgStatus (mkStatus 400 errMsg)]] Returned None
    else
      match HierarchyCommand_create (m_session obj) query cb with
      | CreateThrew e => mkSync [] (Threw e) None
      | CreateNull => mkSync [] Returned None
      | Created =>
          mkSync [] Returned
                 (Some (mkHierarchyCommand (m_session obj) query cb okStatus
                                           HierarchyCommand_noResult))
      end.

(** The worker function of [hierarchy] (lines 562 to 578): [run] under
    its one handler. *)
Definition hierarchy_work (c : HierarchyCommand) : HierarchyCommand :=
  match HierarchyCommand_run c with
  | inr result =>
      mkHierarchyCommand (hc_session c) (hc_query c) (hc_cb c) (hc_status c)
                         result
  | inl _ =>
      mkHierarchyCommand (hc_session c) (hc_query c) (hc_cb c)
                         (mkStatus 500 "Error during hierarchy") (hc_result c)
  end.

(** Its after-work function (lines 579 to 600). *)
Definition hierarchy_after (c : HierarchyCommand) : list effect :=
  [Call (hc_cb c)
        [if ok (hc_status c) then ArgNull else ArgStatus (hc_status c);
         ArgString (hc_result c)]].

(** A whole [hierarchy]. *)
Definition hierarchyAll (obj : Bindings) (args : Args)
    : list effect * outcome :=
  let r := hierarchy obj args in
  (sy_effects r
   ++ match sy_queued r with
      | Some c => hierarchy_after (hierarchy_work c)
      | None => []
      end,
   sy_outcome r).


End MoreBindings.

(** ** The launcher script ([unnamed/part_000]) *)

Module Forever.

(** What [minimist] returns: the positional arguments [argv._] and the
    options by key. *)
Record Argv := mkArgv {
  underscore : list Value;
  keys : gmap string Value
}.

(** [argv[k]]: a key that is not there reads [undefined]. *)
Definition get (argv : Argv) (k : string) : Value :=
  default VUndefined (keys argv !! k).

Inductive step : Type :=
| ConsoleError (line : string)
| Exit (code : nat)
| SetTitle (title : string)
| NewMonitor (filename : Value) (killTree : bool)
| On (event : string)
| Start.

Section Script.

Context {env : Environment}.

(** [v + '_forever'] for the values whose string JavaScript fixes. *)
Definition plus (v : Value) (s : string) : string :=
  match v with
  | VString a => a +:+ s
  | VUndefined => "undefined" +:+ s
  | VNull => "null" +:+ s
  | VBoolean true => "true" +:+ s
  | VBoolean false => "false" +:+ s
  | _ => toStringOther v +:+ s
  end.

(** The script from top to bottom; [process.exit] ends it. *)
Definition main (argv : Argv) : list step :=
  if negb (Nat.eqb (length (underscore argv)) 2) then
    [ConsoleError "Usage: forever SOURCE_FILE COMPONENT"; Exit 1]
  else
    let filename := nth 0 (underscore argv) VUndefined in
    [SetTitle (plus (get argv "1") "_forever");
     NewMonitor filename true;
     On "watch:restart"; On "restart"; On "exit:code"; On "exit";
     Start].

End Script.

End Forever.

(** ** Concrete collaborators *)

Module Demo2.

Definition collaborators (found : exn + bool) (made : created)
    (ran : exn + string) : @Collaborators Demo.env0 :=
  {| Session_initialize := fun _ => found;
     safe_status := fun _ => mkStatus 500 "Unknown error";
     Session_info := fun _ => inr "{}";
     HierarchyCommand_create := fun _ _ _ => made;
     HierarchyCommand_run := fun _ => ran;
     HierarchyCommand_noResult := "" |}.

(** [create("scan", cb1)] and [create(7, cb1)]. *)
Definition createArgs : Args := [VString "scan"; Demo.cb1].
Definition badCreateArgs : Args := [VNumber one; Demo.cb1].

(** [hierarchy({}, cb1)]. *)
Definition hierarchyArgs : Args := [VObject 0; Demo.cb1].

(** [files("")]: scale and offset left out. *)
Definition shortFilesArgs : Args := [VString ""].

(** [forever app.js db] and [forever app.js]. *)
Definition argv : Forever.Argv :=
  Forever.mkArgv [VString "app.js"; VString "db"] ∅.
Definition shortArgv : Forever.Argv := Forever.mkArgv [VString "app.js"] ∅.

(** [global([], 1, {})]: the arbiter is an object, whose string the parser
    of the concrete environment refuses; and [global(1, 1, null)]: the
    paths are no array and the arbiter is no string, but its string is
    JSON. *)
Definition objectArbiterArgs : Args := [VArray []; VNumber one; VObject 0].
Definition coercedGlobalArgs : Args := [VNumber one; VNumber one; VNull].

(** [read(1)]: no callbacks. *)
Definition noCallbackArgs : Args := [VNumber one].

(** The environment whose queries resolve to three ids, a cursor that has
    passed the end of them, and the events of a read in it. *)
Definition env3 : Environment := Demo.env Created (inr [1; 2; 3]) None.
Definition pastEnd : @EntwineReadQuery env3 :=
  @mkQuery env3 tt false false [1; 2; 3] 5.
Definition events3 : list event :=
  [InitCb okStatus (Some 3);
   DataCb [Byte.x01; Byte.x02] false; DataCb [Byte.x03] true;
   AfterWork okStatus].

(** What [files("")] hands on in the concrete environment. *)
Definition shortFilesCall : @FilesCall Demo.env0 :=
  @mkFilesCall Demo.env0 (Some 7) ""
    (Some (mkPoint one one one))
    (Some (mkPoint (S754_zero false) (S754_zero false) (S754_zero false))).

End Demo2.

(** * Properties *)

Section Properties.

Context {env : Environment}.

(** ** Scale and offset *)

Lemma isZero_spec (d : spec_float) :
  isZero d = true <-> exists s, d = S754_zero s.
Proof.
  split.
  - destruct d as [s|s| |s m e]; cbn; try discriminate; eauto;
      destruct s; discriminate.
  - intros [s ->]. reflexivity.
Qed.


(** [read] makes exactly the call [read_createCall] computes, and makes no
    call when that is [None]. *)
Lemma read_createCall_spec (h : Heap) (obj : Bindings) (args : Args) :
  match read_createCall obj args with
  | Some call =>
      read h obj args =
      match ReadCommand_create call with
      | CreateThrew e =>
          mkReadResult h
            [Log (match isRuntimeError e with
                  | Some what => "Could not create read command: " +:+ what
                  | None => "Could not create read command - unknown error"
                  end)]
            Returned None
      | CreateNull => mkReadResult h [] Returned None
      | Created =>
          mkReadResult (shared_copy h (m_session obj)) [] Returned
                       (Some (mkReadCommand call okStatus))
      end
  | None => rr_queued (read h obj args) = None
  end.
Proof.
  unfold read_createCall, read.
  destruct (IsFunction (at_ args 6)); simpl; [|reflexivity].
  destruct (IsFunction (at_ args 7)); simpl; [|reflexivity].
  destruct (String.eqb (read_errMsg args) ""); simpl; [|reflexivity].
  destruct (ReadCommand_create _); try reflexivity.
  destruct (isRuntimeError e); reflexivity.
Qed.

Lemma read_createCall_session (obj : Bindings) (args : Args)
    (call : CreateCall) :
  read_createCall obj args = Some call -> cc_session call = m_session obj.
Proof.
  unfold read_createCall. destruct (_ && _); [|discriminate].
  intros [= <-]. reflexivity.
Qed.

Lemma read_queued_call (h : Heap) (obj : Bindings) (args : Args)
    (cmd : ReadCommand) :
  rr_queued (read h obj args) = Some cmd ->
  read_createCall obj args = Some (rc_call cmd) /\ status cmd = okStatus
  /\ cc_session (rc_call cmd) = m_session obj
  /\ read h obj args =
     mkReadResult (shared_copy h (m_session obj)) [] Returned (Some cmd).
Proof.
  pose proof (read_createCall_spec h obj args) as H.
  destruct (read_createCall obj args) as [call|] eqn:Hcall; [|congruence].
  rewrite H. destruct (ReadCommand_create call) eqn:Hc; simpl; try discriminate.
  intros [= <-]. simpl.
  rewrite (read_createCall_session _ _ _ Hcall). auto.
Qed.


(** ** Global initialization *)

Lemma global_success (g g1 : Globals) (args : Args) :
  global g args = (g1, Returned) -> stageFactory g1 = true.
Proof.
  unfold global.
  destruct (negb (Nat.eqb (Length args) 3)); [discriminate|].
  destruct (stageFactory g); [discriminate|].
  destruct (parse _); [discriminate|].
  intros [= <-]. reflexivity.
Qed.

Lemma global_initialized (g : Globals) (args : Args) :
  stageFactory g = true ->
  global g args =
  (g, Threw (RuntimeError
               (if Nat.eqb (Length args) 3
                then "Multiple global initializations attempted"
                else "Wrong number of arguments to global"))).
Proof.
  intros Hset. unfold global. rewrite Hset.
  destruct (Nat.eqb (Length args) 3); reflexivity.
Qed.

Lemma globalSeq_initialized (g : Globals) (calls : list Args) :
  stageFactory g = true -> globalSeq g calls = g.
Proof.
  intros Hset. unfold globalSeq.
  induction calls as [|args calls IH]; simpl; [reflexivity|].
  rewrite global_initialized by assumption. exact IH.
Qed.

(** C8: global initialization is one-time.  After an invocation of [global]
    that succeeded, every later invocation, whatever was called in between
    and whatever its arguments, leaves by throwing a [std::runtime_error]
    to the caller (no Status is produced) and the process state stays the
    one the successful invocation set up. *)
Theorem global_initializes_once (g g1 : Globals) (args : Args)
    (between : list Args) (again : Args) :
  global g args = (g1, Returned) ->
  global (globalSeq g1 between) again =
  (g1, Threw (RuntimeError
                (if Nat.eqb (Length again) 3
                 then "Multiple global initializations attempted"
                 else "Wrong number of arguments to global"))).
Proof.
  intros Hfirst. apply global_success in Hfirst.
  rewrite globalSeq_initialized by assumption.
  apply global_initialized; assumption.
Qed.

Lemma append_tab_nonempty (s t : string) : s +:+ tab +:+ t <> "".
Proof. destruct s; discriminate. Qed.

Lemma global_errMsg_nonempty (pathsArg cacheSizeArg arbiterArg : Value) :
  IsArray pathsArg = false \/ IsNumber cacheSizeArg = false
  \/ IsString arbiterArg = false ->
  global_errMsg [pathsArg; cacheSizeArg; arbiterArg] <> "".
Proof.
  unfold global_errMsg, at_; cbn [nth].
  destruct (IsArray pathsArg), (IsNumber cacheSizeArg),
    (IsString arbiterArg); cbn [negb];
    intros [H|[H|H]]; try discriminate H; apply append_tab_nonempty.
Qed.

(** C9, as the code has it: when [global] is called with three arguments
    on a process that is not initialized yet and an argument has the wrong
    type, the error message the validation builds is not empty, and it is
    neither tested nor reported: [paths] becomes the strings of the array
    (none for a value that is no array), [cache] gets the coerced size, and
    the coerced arbiter string goes to the parser.  If the parser accepts
    it the call returns normally with the process initialized; if the
    parser throws, its exception (not the validation message) leaves the
    call, with [paths] and [cache] written and the process not
    initialized. *)
Theorem global_drops_validation_errors (g : Globals)
    (pathsArg cacheSizeArg arbiterArg : Value) :
  stageFactory g = false ->
  IsArray pathsArg = false \/ IsNumber cacheSizeArg = false
  \/ IsString arbiterArg = false ->
  global_errMsg [pathsArg; cacheSizeArg; arbiterArg] <> ""
  /\ (IsArray pathsArg = false -> parsePathList pathsArg = [])
  /\ global g [pathsArg; cacheSizeArg; arbiterArg] =
     match parse (ToString arbiterArg) with
     | inr json =>
         (mkGlobals true (Some (toSizeT (NumberValue cacheSizeArg)))
                    (Some json) (parsePathList pathsArg),
          Returned)
     | inl e =>
         (mkGlobals false (Some (toSizeT (NumberValue cacheSizeArg)))
                    (outerScope g) (parsePathList pathsArg),
          Threw e)
     end.
Proof.
  intros Hfresh Hbad. split; [|split].
  - apply global_errMsg_nonempty; assumption.
  - intros Hp. unfold parsePathList. rewrite Hp.
    rewrite andb_false_r. reflexivity.
  - unfold global; cbn [Length length Nat.eqb negb at_ nth].
    rewrite Hfresh.
    destruct (parse (ToString arbiterArg)); cbn; rewrite ?Hfresh; reflexivity.
Qed.

(** ** The cursor and the streaming loop *)

Lemma readPoint_at (q : EntwineReadQuery) (schema : Schema) (rasterize : bool)
    (id : nat) :
  m_ids q !! index q = Some id ->
  readPoint q schema rasterize = Some (getPointData id schema).
Proof. unfold readPoint. intros ->. reflexivity. Qed.

Lemma eof_true (q : EntwineReadQuery) :
  eof q = true -> drop (index q) (m_ids q) = [].
Proof.
  unfold eof, numPoints. intros H%Nat.eqb_eq.
  apply drop_ge. lia.
Qed.

Lemma eof_false (q : EntwineReadQuery) :
  index q <= numPoints q -> eof q = false ->
  exists id, m_ids q !! index q = Some id
             /\ drop (index q) (m_ids q) = id :: drop (S (index q)) (m_ids q).
Proof.
  unfold eof, numPoints. intros Hle H%Nat.eqb_neq.
  destruct (lookup_lt_is_Some_2 (m_ids q) (index q)) as [id Hid]; [lia|].
  exists id. split; [assumption|]. apply drop_S. assumption.
Qed.

Lemma decodeAll_cons_ok (schema : Schema) (id : nat) (rest : list nat)
    (point bytes : list Byte.byte) (stopped : option exn) :
  getPointData id schema = inr point ->
  decodeAll schema rest = (bytes, stopped) ->
  decodeAll schema (id :: rest) = (point ++ bytes, stopped).
Proof. intros Hp Hr. cbn. rewrite Hp, Hr. reflexivity. Qed.

(** What one round of filling does, in terms of decoding the ids that are
    left: it never reads past the ids, it consumes a prefix of them in
    order, and what it wrote is the decoding of that prefix. *)
Lemma fill_spec (room : nat) :
  forall (q : EntwineReadQuery) (buffer : list Byte.byte),
    index q <= numPoints q ->
    match fill room q buffer with
    | Filled q' buffer' =>
        m_ids q' = m_ids q /\ m_schema q' = m_schema q
        /\ index q <= index q' <= numPoints q
        /\ (0 < room -> eof q = false -> index q < index q')
        /\ exists written,
             buffer' = buffer ++ written
             /\ forall bytes stopped,
                  decodeAll (m_schema q) (drop (index q') (m_ids q))
                  = (bytes, stopped) ->
                  decodeAll (m_schema q) (drop (index q) (m_ids q))
                  = (written ++ bytes, stopped)
    | FillThrew q' buffer' e =>
        exists written,
          buffer' = buffer ++ written
          /\ decodeAll (m_schema q) (drop (index q) (m_ids q))
             = (written, Some e)
    | FillUndefined => False
    end.
Proof.
  induction room as [|room IH]; intros q buffer Hle; cbn [fill].
  - repeat split; try lia. exists []. rewrite app_nil_r. auto.
  - destruct (eof q) eqn:Heof.
    + repeat split; try lia; try discriminate.
      exists []. rewrite app_nil_r. auto.
    + destruct (eof_false q Hle Heof) as (id & Hid & Hdrop).
      rewrite (readPoint_at _ _ _ _ Hid).
      destruct (getPointData id (m_schema q)) as [e|point] eqn:Hpoint.
      * exists []. rewrite app_nil_r, Hdrop. cbn. rewrite Hpoint. auto.
      * assert (Hlt : index q < numPoints q).
        { unfold numPoints. apply lookup_lt_Some in Hid. exact Hid. }
        specialize (IH (advance q) (buffer ++ point)).
        assert (Hadv : index (advance q) <= numPoints (advance q))
          by (unfold index, numPoints, advance in *; cbn; lia).
        specialize (IH Hadv).
        destruct (fill room (advance q) (buffer ++ point))
          as [q' buffer'|q' buffer' e|]; [| |exact IH].
        -- destruct IH as (Hids & Hschema & Hidx & _ & written & -> & Hdec).
           cbn [advance m_ids m_schema] in *.
           unfold index, numPoints in *; cbn [advance m_index m_ids] in *.
           repeat split; try assumption; try lia.
           exists (point ++ written). split; [by rewrite app_assoc|].
           intros bytes stopped Hrest.
           rewrite Hdrop, <- app_assoc.
           apply decodeAll_cons_ok; [assumption|]. apply Hdec. assumption.
        -- destruct IH as (written & -> & Hdec).
           cbn [advance m_ids m_schema] in *.
           unfold index in *; cbn [advance m_index] in *.
           exists (point ++ written). split; [by rewrite app_assoc|].
           rewrite Hdrop. apply decodeAll_cons_ok; assumption.
Qed.

Lemma dataBytes_cons_data (buffer : list Byte.byte) (done : bool)
    (evs : list event) :
  dataBytes (DataCb buffer done :: evs) = buffer ++ dataBytes evs.
Proof. reflexivity. Qed.

(** The streaming loop with enough fuel for the ids that are left: it ends,
    it only produces data callbacks, and their bytes, concatenated, are the
    direct decoding of the ids that were left; it stops with an exception
    exactly where the direct decoding does. *)
Lemma stream_spec (fuel : nat) :
  forall q : EntwineReadQuery,
    0 < maxPoints ->
    index q <= numPoints q ->
    numPoints q - index q <= fuel ->
    match stream fuel q with
    | StreamDone evs =>
        Forall (fun e => isDataCb e = true) evs
        /\ decodeAll (m_schema q) (drop (index q) (m_ids q))
           = (dataBytes evs, None)
    | StreamThrew evs e =>
        Forall (fun e => isDataCb e = true) evs
        /\ decodeAll (m_schema q) (drop (index q) (m_ids q))
           = (dataBytes evs, Some e)
    | StreamUndefined | StreamOutOfFuel => False
    end.
Proof.
  induction fuel as [|fuel IH]; intros q Hroom Hle Hfuel.
  - cbn [stream]. destruct (eof q) eqn:Heof.
    + split; [constructor|]. rewrite (eof_true q Heof). reflexivity.
    + unfold eof in Heof. apply Nat.eqb_neq in Heof. lia.
  - cbn [stream]. destruct (eof q) eqn:Heof.
    + split; [constructor|]. rewrite (eof_true q Heof). reflexivity.
    + pose proof (fill_spec maxPoints q [] Hle) as Hfill.
      destruct (fill maxPoints q []) as [q' buffer|q' buffer e|];
        [| |exact Hfill].
      * destruct Hfill as (Hids & Hschema & Hidx & Hprog & written & Hb & Hdec).
        cbn [app] in Hb. subst buffer.
        specialize (Hprog Hroom Heof).
        assert (Hn : numPoints q' = numPoints q)
          by (unfold numPoints; congruence).
        specialize (IH q' Hroom ltac:(lia) ltac:(lia)).
        rewrite Hids, Hschema in IH.
        destruct (stream fuel q') as [evs|evs e| |]; cbn [delivered];
          try exact IH; destruct IH as [Hall Hrest];
          (split; [constructor; [reflexivity|assumption]|]);
          rewrite dataBytes_cons_data; apply Hdec; assumption.
      * destruct Hfill as (written & Hb & Hdec). cbn [app] in Hb.
        subst buffer. rewrite Hdec.
        destruct written as [|b written]; cbn.
        -- split; [constructor|reflexivity].
        -- split; [repeat constructor|]. rewrite app_nil_r. reflexivity.
Qed.

(** ** Shared ownership *)

Lemma alive_lookup (h : Heap) (p : option nat) :
  alive h p = true -> exists l n, p = Some l /\ h !! l = Some (S n).
Proof.
  unfold alive, use_count. intros H%Nat.ltb_lt.
  destruct p as [l|]; [|lia].
  destruct (h !! l) as [[|n]|] eqn:Hl; cbn in H; try lia. eauto.
Qed.

Lemma use_count_copy (h : Heap) (p : option nat) :
  alive h p = true -> use_count (shared_copy h p) p = S (use_count h p).
Proof.
  intros (l & n & -> & Hl)%alive_lookup. cbn. rewrite Hl.
  rewrite lookup_insert_eq. reflexivity.
Qed.

Lemma use_count_release (h : Heap) (p : option nat) :
  use_count (shared_release h p) p = use_count h p - 1.
Proof.
  destruct p as [l|]; cbn; [|reflexivity].
  destruct (h !! l) as [[|[|n]]|] eqn:Hl; cbn.
  - rewrite lookup_delete_eq. reflexivity.
  - rewrite lookup_delete_eq. reflexivity.
  - rewrite lookup_insert_eq. cbn. lia.
  - rewrite Hl. reflexivity.
Qed.

Lemma alive_use_count (h : Heap) (p : option nat) :
  alive h p = true <-> 0 < use_count h p.
Proof. unfold alive. apply Nat.ltb_lt. Qed.

(** ** The worker function *)

Lemma stream_events_data (fuel : nat) :
  forall q : EntwineReadQuery,
    match stream fuel q with
    | StreamDone evs | StreamThrew evs _ =>
        Forall (fun e => isDataCb e = true) evs
    | StreamUndefined | StreamOutOfFuel => True
    end.
Proof.
  induction fuel as [|fuel IH]; intros q; cbn [stream];
    destruct (eof q); try constructor.
  destruct (fill maxPoints q []) as [q' buffer|q' buffer e|]; [| |exact I].
  - specialize (IH q').
    destruct (stream fuel q'); cbn [delivered]; try exact I;
      constructor; auto.
  - destruct buffer; repeat constructor.
Qed.

(** The status the four handlers of [init] leave for an exception. *)
Lemma work_init_failed (cmd : ReadCommand) (e : exn) :
  init cmd = inl e ->
  exists line what,
    work cmd =
    Some (setStatus cmd (match e with Unknown => 500 | _ => 400 end) what,
          [Log line;
           InitCb (mkStatus (match e with Unknown => 500 | _ => 400 end) what)
                  None]).
Proof.
  intros Hinit. unfold work, work_init. rewrite Hinit.
  destruct e; cbn; eauto.
Qed.

Lemma work_init_ok (cmd : ReadCommand) (q : EntwineReadQuery) :
  status cmd = okStatus ->
  init cmd = inr q ->
  work cmd =
  match stream (numPoints q) q with
  | StreamDone evs =>
      Some (cmd, InitCb okStatus (Some (numPoints q)) :: evs)
  | StreamThrew evs e =>
      Some (read_handler cmd e, InitCb okStatus (Some (numPoints q)) :: evs)
  | StreamUndefined | StreamOutOfFuel => None
  end.
Proof.
  intros Hok Hinit. unfold work, work_init, initAsync. rewrite Hinit, Hok.
  cbn. destruct (stream (numPoints q) q) as [evs|evs e| |]; reflexivity.
Qed.

Lemma read_handler_status (cmd : ReadCommand) (e : exn) :
  exists what, status (read_handler cmd e) = mkStatus 500 what.
Proof. unfold read_handler. destruct (isRuntimeError e); cbn; eauto. Qed.

Lemma read_handler_rc_call (cmd : ReadCommand) (e : exn) :
  rc_call (read_handler cmd e) = rc_call cmd.
Proof. unfold read_handler. destruct (isRuntimeError e); reflexivity. Qed.

Lemma work_no_afterWork (cmd cmd' : ReadCommand) (evs : list event) :
  work cmd = Some (cmd', evs) -> Forall (fun e => isAfterWork e = false) evs.
Proof.
  unfold work. destruct (work_init cmd) as [[cmd1 query] logged] eqn:Hinit.
  assert (Hlog : Forall (fun e => isAfterWork e = false) logged).
  { unfold work_init in Hinit.
    destruct (init cmd) as [[]|]; inversion Hinit; repeat constructor. }
  destruct (negb (ok (status cmd1))).
  - intros [= <- <-]. apply Forall_app. split; [assumption|].
    repeat constructor.
  - unfold work_read. destruct query as [q|]; [|discriminate].
    pose proof (stream_events_data (numPoints q) q) as Hdata.
    assert (Hevs : forall evs0, Forall (fun e => isDataCb e = true) evs0 ->
              Forall (fun e => isAfterWork e = false)
                     (logged ++ [initAsync cmd1 (Some q)] ++ evs0)).
    { intros evs0 H0. apply Forall_app. split; [assumption|].
      constructor; [reflexivity|].
      eapply Forall_impl; [exact H0|]. intros [] ?; try discriminate.
      reflexivity. }
    destruct (stream (numPoints q) q) as [evs0|evs0 e| |]; try discriminate.
    + intros [= <- <-]. apply Hevs, Hdata.
    + intros [= <- <-]. apply Hevs, Hdata.
Qed.

(** The worker only writes the status field of its command. *)
Lemma work_rc_call (cmd cmd' : ReadCommand) (evs : list event) :
  work cmd = Some (cmd', evs) -> rc_call cmd' = rc_call cmd.
Proof.
  unfold work. destruct (work_init cmd) as [[cmd1 query] logged] eqn:Hinit.
  assert (H1 : rc_call cmd1 = rc_call cmd).
  { unfold work_init in Hinit.
    destruct (init cmd) as [[]|]; inversion Hinit; reflexivity. }
  destruct (negb (ok (status cmd1))); [intros [= <- _]; exact H1|].
  unfold work_read. destruct query as [q|]; [|discriminate].
  destruct (stream (numPoints q) q) as [evs0|evs0 e| |]; try discriminate.
  - intros [= <- _]. exact H1.
  - intros [= <- _]. rewrite read_handler_rc_call. exact H1.
Qed.

(** A read that queued a command, on a Session object that owns a live
    Session: the whole read is the worker followed by the after-work
    function. *)
Lemma readAll_queued (h : Heap) (obj : Bindings) (args : Args)
    (cmd : ReadCommand) :
  alive h (m_session obj) = true ->
  rr_queued (read h obj args) = Some cmd ->
  readAll h obj args =
  match work cmd with
  | Some (cmd', evs) =>
      Some (evs ++ AfterWork (status cmd')
                :: (if terminate cmd'
                    then [Log "Read was successfully terminated"] else []),
            Returned)
  | None => None
  end.
Proof.
  intros Halive Hq. unfold readAll.
  destruct (read_queued_call _ _ _ _ Hq) as (_ & _ & Hsession & ->). cbn.
  unfold runQueued. rewrite Hsession.
  assert (Hc : alive (shared_copy h (m_session obj)) (m_session obj) = true).
  { apply alive_use_count. rewrite use_count_copy by assumption. lia. }
  rewrite Hc. destruct (work cmd) as [[cmd' evs]|]; reflexivity.
Qed.

Lemma callbacks_data (evs : list event) :
  Forall (fun e => isDataCb e = true) evs -> callbacks evs = evs.
Proof.
  unfold callbacks. induction 1 as [|e evs He _ IH]; [reflexivity|].
  rewrite filter_cons_True; [by rewrite IH|].
  unfold isCallback. rewrite He. by rewrite orb_true_r.
Qed.

Lemma callbacks_tail (b : bool) :
  callbacks (if b then [Log "Read was successfully terminated"] else []) = [].
Proof. destruct b; reflexivity. Qed.

Lemma dataBytes_app (evs1 evs2 : list event) :
  dataBytes (evs1 ++ evs2) = dataBytes evs1 ++ dataBytes evs2.
Proof. apply flat_map_app. Qed.

Lemma init_resolved (cmd : ReadCommand) (schema : Schema) (rasterize : bool)
    (ids : list nat) :
  resolve (rc_call cmd) = inr (schema, rasterize, ids) ->
  init cmd = inr (mkQuery schema (cc_compress (rc_call cmd)) rasterize ids 0).
Proof. unfold init. intros ->. reflexivity. Qed.

(** ** Reads *)

(** C1: a read that queues a command whose query resolves to the ids [ids]
    delivers, after the init callback and before the terminal callback, a
    run of data callbacks whose buffers, concatenated in the order of
    delivery, are exactly the bytes obtained by decoding [ids] directly, in
    order (up to the first id whose decoding throws, if one does).  The
    point written when the cursor is at [i] is the decoding of the [i]-th
    id. *)
Theorem streaming_reproduces_direct_decoding (h : Heap) (obj : Bindings)
    (args : Args) (cmd : ReadCommand) (schema : Schema) (rasterize : bool)
    (ids : list nat) :
  0 < maxPoints ->
  alive h (m_session obj) = true ->
  rr_queued (read h obj args) = Some cmd ->
  resolve (rc_call cmd) = inr (schema, rasterize, ids) ->
  (forall (q : EntwineReadQuery) (i id : nat),
      m_ids q = ids -> index q = i -> ids !! i = Some id ->
      readPoint q schema rasterize = Some (getPointData id schema))
  /\ exists datas s tail,
      readAll h obj args =
      Some (InitCb okStatus (Some (length ids))
              :: datas ++ AfterWork s :: tail,
            Returned)
      /\ Forall (fun e => isDataCb e = true) datas
      /\ callbacks tail = []
      /\ dataBytes datas = fst (decodeAll schema ids)
      /\ (snd (decodeAll schema ids) = None -> s = okStatus).
Proof.
  intros Hroom Halive Hq Hres. split.
  - intros q i id <- <- Hid. apply readPoint_at. assumption.
  - rewrite (readAll_queued _ _ _ _ Halive Hq).
    destruct (read_queued_call _ _ _ _ Hq) as (_ & Hok & _ & _).
    rewrite (work_init_ok _ _ Hok (init_resolved _ _ _ _ Hres)).
    set (q := mkQuery schema _ rasterize ids 0).
    pose proof (stream_spec (numPoints q) q Hroom) as Hs.
    unfold index, numPoints in Hs; cbn [q m_index m_ids m_schema] in Hs.
    specialize (Hs ltac:(lia) ltac:(lia)). rewrite drop_0 in Hs.
    change (numPoints q) with (length ids).
    destruct (stream (length ids) q) as [evs|evs e| |]; try contradiction;
      destruct Hs as [Hall Hdec]; rewrite Hdec; cbn [fst snd].
    + eexists evs, _, _. split; [reflexivity|].
      rewrite callbacks_tail. auto.
    + eexists evs, _, _. split; [reflexivity|].
      rewrite callbacks_tail. repeat split; auto. discriminate.
Qed.

(** C4: a read whose query resolves to no id reports a total of zero points
    through the init callback with the success status, never invokes the
    data callback, and ends normally: the terminal callback finds the
    success status. *)
Theorem empty_result_completes_without_data (h : Heap) (obj : Bindings)
    (args : Args) (cmd : ReadCommand) (schema : Schema) (rasterize : bool) :
  alive h (m_session obj) = true ->
  rr_queued (read h obj args) = Some cmd ->
  resolve (rc_call cmd) = inr (schema, rasterize, []) ->
  exists tail,
    readAll h obj args =
    Some (InitCb okStatus (Some 0) :: AfterWork okStatus :: tail, Returned)
    /\ callbacks tail = []
    /\ filter isDataCb (InitCb okStatus (Some 0) :: AfterWork okStatus :: tail)
       = [].
Proof.
  intros Halive Hq Hres.
  rewrite (readAll_queued _ _ _ _ Halive Hq).
  destruct (read_queued_call _ _ _ _ Hq) as (_ & Hok & _ & _).
  rewrite (work_init_ok _ _ Hok (init_resolved _ _ _ _ Hres)). cbn.
  rewrite Hok. eexists. split; [reflexivity|].
  destruct (terminate cmd); split; reflexivity.
Qed.


(** C3, as the code has it: when the initialization of a queued command
    throws, the init callback (the only callback) carries a Status of code
    500 exactly when the thrown value is not a [std::exception]; for every
    [std::exception], a query exception or not, the code is 400.  When the
    streaming read throws, after the init callback and the data callbacks
    delivered so far, the worker sets the status field of the command to
    code 500. *)
Theorem read_failure_statuses (h : Heap) (obj : Bindings) (args : Args)
    (cmd : ReadCommand) :
  alive h (m_session obj) = true ->
  rr_queued (read h obj args) = Some cmd ->
  (forall e,
      init cmd = inl e ->
      exists evs s,
        readAll h obj args = Some (evs, Returned)
        /\ callbacks evs = [InitCb s None]
        /\ code s = match e with Unknown => 500 | _ => 400 end)
  /\ (forall q datas e,
        init cmd = inr q ->
        stream (numPoints q) q = StreamThrew datas e ->
        exists cmd',
          work cmd
          = Some (cmd', InitCb okStatus (Some (numPoints q)) :: datas)
          /\ code (status cmd') = 500
          /\ class5xx (status cmd')).
Proof.
  intros Halive Hq. split.
  - intros e Hfail. rewrite (readAll_queued _ _ _ _ Halive Hq).
    destruct (work_init_failed _ _ Hfail) as (line & what & ->).
    eexists _, _. split; [reflexivity|]. cbn.
    destruct (terminate _); cbn; split; reflexivity.
  - intros q datas e Hinit Hthrew.
    destruct (read_queued_call _ _ _ _ Hq) as (_ & Hok & _ & _).
    rewrite (work_init_ok _ _ Hok Hinit), Hthrew.
    destruct (read_handler_status cmd e) as [what Hwhat].
    eexists. split; [reflexivity|]. rewrite Hwhat.
    split; [reflexivity|]. unfold class5xx; cbn; lia.
Qed.

(** C10: when [ReadCommand::create] throws, [read] writes one line to the
    log and returns: no command is queued, the Session keeps its owners,
    and the whole read consists of that log line, so neither callback is
    ever invoked and no Status reaches the caller. *)
Theorem create_exception_is_only_logged (h : Heap) (obj : Bindings)
    (args : Args) (call : CreateCall) (e : exn) :
  read_createCall obj args = Some call ->
  ReadCommand_create call = CreateThrew e ->
  exists line,
    read h obj args = mkReadResult h [Log line] Returned None
    /\ readAll h obj args = Some ([Log line], Returned)
    /\ callbacks [Log line] = [].
Proof.
  intros Hcall Hthrew.
  pose proof (read_createCall_spec h obj args) as Hread.
  rewrite Hcall, Hthrew in Hread.
  eexists. split; [exact Hread|]. split; [|reflexivity].
  unfold readAll. rewrite Hread. reflexivity.
Qed.

(** ** Destroying a Session under a command in flight *)
Lemma work_init_rc_call (cmd cmd1 : ReadCommand)
    (query : option EntwineReadQuery) (logged : list event) :
  work_init cmd = (cmd1, query, logged) ->
  rc_call cmd1 = rc_call cmd
  /\ Forall (fun e => isAfterWork e = false) logged.
Proof.
  unfold work_init.
  destruct (init cmd) as [[]|]; intros [= <- <- <-]; cbn;
    split; repeat constructor.
Qed.

(** A step keeps the command on its Session; the command is deleted by the
    step from [Worked], and by no other. *)
Lemma stepCommand_inFlight (ph ph' : phase) (evs : list event)
    (cmd : ReadCommand) :
  inFlight ph = Some cmd ->
  stepCommand ph = Some (ph', evs) ->
  match ph with
  | Worked _ => ph' = Terminated
  | _ => exists cmd', inFlight ph' = Some cmd'
                      /\ rc_call cmd' = rc_call cmd
                      /\ Forall (fun e => isAfterWork e = false) evs
  end.
Proof.
  destruct ph as [c|c q|c|]; cbn; intros [= ->].
  - destruct (work_init cmd) as [[cmd1 query] logged] eqn:Hinit.
    apply work_init_rc_call in Hinit as [Hcall Hlog].
    assert (Hevs : Forall (fun e => isAfterWork e = false)
                          (logged ++ [initAsync cmd1 query])).
    { apply Forall_app. split; [assumption|]. repeat constructor. }
    destruct (negb (ok (status cmd1))).
    + intros [= <- <-]. cbn. eauto.
    + destruct query as [q|]; [|discriminate].
      intros [= <- <-]. cbn. eauto.
  - destruct (eof q).
    + intros [= <- <-]. cbn. eauto.
    + destruct (fill maxPoints q []) as [q' buffer|q' buffer e|];
        [| |discriminate]; intros [= <- <-]; cbn.
      * eexists. repeat split. repeat constructor.
      * eexists. split; [reflexivity|].
        split; [apply read_handler_rc_call|].
        destruct buffer; repeat constructor.
  - intros [= <- _]. reflexivity.
Qed.

Lemma runCommand_Terminated (n : nat) :
  runCommand n Terminated = Some (Terminated, []).
Proof. induction n as [|n IH]; cbn; [reflexivity|]. rewrite IH. reflexivity. Qed.

Lemma runCommand_add (n m : nat) :
  forall ph ph' ph'' evs evs',
    runCommand n ph = Some (ph', evs) ->
    runCommand m ph' = Some (ph'', evs') ->
    runCommand (n + m) ph = Some (ph'', evs ++ evs').
Proof.
  induction n as [|n IH]; cbn; intros ph ph' ph'' evs evs'.
  - intros [= <- <-] Hm. exact Hm.
  - destruct (stepCommand ph) as [[ph1 evs1]|]; [|discriminate].
    destruct (runCommand n ph1) as [[ph2 evs2]|] eqn:Hn; [|discriminate].
    intros [= <- <-] Hm. rewrite (IH _ _ _ _ _ Hn Hm).
    by rewrite app_assoc.
Qed.

(** The streaming loop, round by round. *)
Lemma stream_steps (cmd : ReadCommand) (fuel : nat) :
  forall q,
    match stream fuel q with
    | StreamDone evs =>
        exists n, runCommand n (Streaming cmd q) = Some (Worked cmd, evs)
    | StreamThrew evs e =>
        exists n, runCommand n (Streaming cmd q)
                  = Some (Worked (read_handler cmd e), evs)
    | StreamUndefined | StreamOutOfFuel => True
    end.
Proof.
  assert (Hend : forall q, eof q = true ->
            runCommand 1 (Streaming cmd q) = Some (Worked cmd, [])).
  { intros q Heof. cbn. rewrite Heof. reflexivity. }
  induction fuel as [|fuel IH]; intros q; cbn [stream];
    destruct (eof q) eqn:Heof; try exact I; eauto.
  destruct (fill maxPoints q []) as [q' buffer|q' buffer e|] eqn:Hfill;
    [| |exact I].
  - specialize (IH q').
    destruct (stream fuel q') as [evs|evs e| |]; cbn [delivered];
      try exact I; destruct IH as [n Hn]; exists (S n); cbn;
      rewrite Heof, Hfill, Hn; reflexivity.
  - exists 1. cbn. rewrite Heof, Hfill. by rewrite app_nil_r.
Qed.

(** The worker function, step by step: the steps produce its events and
    leave the command as it leaves it. *)
Lemma work_steps (cmd cmd' : ReadCommand) (evs : list event) :
  work cmd = Some (cmd', evs) ->
  exists n, runCommand n (Queued cmd) = Some (Worked cmd', evs).
Proof.
  unfold work. destruct (work_init cmd) as [[cmd1 query] logged] eqn:Hinit.
  destruct (negb (ok (status cmd1))) eqn:Hok.
  - intros [= <- <-]. exists 1. cbn. rewrite Hinit, Hok.
    by rewrite app_nil_r.
  - unfold work_read. destruct query as [q|]; [|discriminate].
    pose proof (stream_steps cmd1 (numPoints q) q) as Hs.
    destruct (stream (numPoints q) q) as [evs0|evs0 e| |]; try discriminate;
      intros [= <- <-]; destruct Hs as [n Hn]; exists (1 + n);
      rewrite (cons_middle _ logged evs0), (app_assoc logged [_] evs0);
      (eapply runCommand_add; [|exact Hn]);
      cbn; rewrite Hinit, Hok; by rewrite app_nil_r.
Qed.

Lemma afterTerminal_none (evs : list event) :
  Forall (fun e => isAfterWork e = false) evs -> afterTerminal evs = [].
Proof.
  induction 1 as [|e evs He _ IH]; [reflexivity|].
  destruct e; cbn; try exact IH. discriminate.
Qed.

Lemma afterTerminal_app (pre evs : list event) :
  Forall (fun e => isAfterWork e = false) pre ->
  afterTerminal (pre ++ evs) = afterTerminal evs.
Proof.
  induction 1 as [|e pre He _ IH]; [reflexivity|].
  destruct e; cbn; try exact IH. discriminate.
Qed.

(** In the events of a run of the command the terminal callback comes once,
    when the command is deleted, and no callback follows it. *)
Lemma runCommand_trace (n : nat) :
  forall ph ph' evs,
    runCommand n ph = Some (ph', evs) ->
    (is_Some (inFlight ph') -> Forall (fun e => isAfterWork e = false) evs)
    /\ callbacks (afterTerminal evs) = []
    /\ (inFlight ph = None -> evs = [] /\ ph' = Terminated).
Proof.
  induction n as [|n IH]; intros ph ph' evs; cbn [runCommand].
  - intros [= <- <-]. split; [constructor|]. split; [reflexivity|].
    destruct ph; try discriminate. auto.
  - destruct (stepCommand ph) as [[ph1 evs1]|] eqn:Hstep; [|discriminate].
    destruct (runCommand n ph1) as [[ph2 evs2]|] eqn:Hrun; [|discriminate].
    intros [= <- <-]. destruct (IH _ _ _ Hrun) as (Hbefore & Hafter & Hgone).
    destruct (inFlight ph) as [cmd|] eqn:Hcmd.
    + pose proof (stepCommand_inFlight _ _ _ _ Hcmd Hstep) as Hph.
      assert (Hkeep : forall cmd', inFlight ph1 = Some cmd' ->
                Forall (fun e => isAfterWork e = false) evs1 ->
                (is_Some (inFlight ph2) ->
                 Forall (fun e => isAfterWork e = false) (evs1 ++ evs2))
                /\ callbacks (afterTerminal (evs1 ++ evs2)) = []
                /\ (Some cmd = None -> evs1 ++ evs2 = [] /\ ph2 = Terminated)).
      { intros cmd' _ Hevs1. split; [|split; [|discriminate]].
        - intros Hin. apply Forall_app. auto.
        - rewrite afterTerminal_app by assumption. exact Hafter. }
      destruct ph as [c|c q|c|]; try discriminate Hcmd;
        try (destruct Hph as (cmd' & Hin & _ & Hevs1); eauto).
      subst ph1. destruct (Hgone eq_refl) as [-> ->].
      cbn in Hstep. injection Hstep as <-.
      split; [intros [? [=]]|]. split; [|discriminate].
      cbn. rewrite app_nil_r. apply callbacks_tail.
    + destruct ph; try discriminate Hcmd. cbn in Hstep.
      injection Hstep as <- <-. destruct (Hgone eq_refl) as [-> ->].
      split; [intros [? [=]]|]. auto.
Qed.

(** One action keeps the owners of the Session accounted for, and a step of
    the command is never refused for want of a live Session. *)
Lemma act_owned (l others : nat) (a : action) (s : InFlight) :
  owned l others s ->
  match a with
  | Destroy =>
      exists s', act Destroy s = Some (s', [])
                 /\ owned l others s'
                 /\ if_phase s' = if_phase s
                 /\ m_session (if_obj s') = None
  | RunCommand =>
      match stepCommand (if_phase s) with
      | Some (ph', evs) =>
          exists s', act RunCommand s = Some (s', evs)
                     /\ owned l others s'
                     /\ if_phase s' = ph'
                     /\ if_obj s' = if_obj s
      | None => act RunCommand s = None
      end
  end.
Proof.
  destruct s as [h obj ph]. unfold owned; cbn [if_heap if_obj if_phase].
  intros (Hsession & Hobj & Hcount). destruct a.
  - unfold act; cbn [if_heap if_obj if_phase].
    destruct (inFlight ph) as [cmd|] eqn:Hcmd.
    + rewrite (Hsession cmd eq_refl).
      assert (Halive : alive h (Some l) = true)
        by (apply alive_use_count; lia).
      rewrite Halive.
      destruct (stepCommand ph) as [[ph' evs]|] eqn:Hstep; [|reflexivity].
      pose proof (stepCommand_inFlight _ _ _ _ Hcmd Hstep) as Hph.
      eexists. split; [reflexivity|]. cbn [if_heap if_obj if_phase].
      split; [|auto].
      destruct ph as [c|c q|c|]; try discriminate Hcmd;
        try (destruct Hph as (cmd' & Hin & Hcall & _); rewrite Hin;
             split; [intros ? [= <-]; rewrite Hcall; auto|];
             split; [assumption|]; cbn in Hcmd; exact Hcount).
      subst ph'. cbn [inFlight]. split; [discriminate|]. split; [assumption|].
      rewrite use_count_release. lia.
    + destruct ph; try discriminate Hcmd. cbn.
      eexists. split; [reflexivity|]. cbn. auto.
  - unfold act, destroy; cbn [if_heap if_obj if_phase].
    eexists. split; [reflexivity|]. cbn [if_heap if_obj if_phase m_session].
    split; [|auto]. split; [assumption|]. split; [auto|].
    destruct Hobj as [Hl|Hnull]; rewrite ?Hl, ?Hnull in *.
    + rewrite use_count_release. lia.
    + cbn [shared_release]. lia.
Qed.

(** Under any schedule the command makes the progress, and produces the
    events, of its own steps alone. *)
Lemma runSchedule_owned (l others : nat) (sched : list action) :
  forall s,
    owned l others s ->
    match runCommand (commandSteps sched) (if_phase s) with
    | Some (ph, evs) =>
        exists s', runSchedule sched s = Some (s', evs)
                   /\ if_phase s' = ph
                   /\ owned l others s'
                   /\ m_session (if_obj s')
                      = (if destroys sched then None
                         else m_session (if_obj s))
    | None => runSchedule sched s = None
    end.
Proof.
  induction sched as [|a sched IH]; intros s Hs.
  - cbn. eauto.
  - pose proof (act_owned l others a s Hs) as Hact. destruct a.
    + cbn [commandSteps runCommand runSchedule destroys existsb orb].
      destruct (stepCommand (if_phase s)) as [[ph1 evs1]|];
        [|rewrite Hact; reflexivity].
      destruct Hact as (s1 & -> & Hs1 & <- & Hobj1).
      specialize (IH s1 Hs1).
      destruct (runCommand (commandSteps sched) (if_phase s1))
        as [[ph2 evs2]|]; [|rewrite IH; reflexivity].
      destruct IH as (s2 & -> & Hph & Hs2 & Hobj2).
      exists s2. rewrite Hobj2, Hobj1. auto.
    + cbn [commandSteps runSchedule destroys existsb orb].
      destruct Hact as (s1 & -> & Hs1 & Hph1 & Hobj1).
      specialize (IH s1 Hs1). rewrite Hph1 in IH.
      destruct (runCommand (commandSteps sched) (if_phase s))
        as [[ph2 evs2]|]; [|rewrite IH; reflexivity].
      destruct IH as (s2 & -> & Hph & Hs2 & Hobj2).
      exists s2. rewrite Hobj2, Hobj1.
      destruct (destroys sched); auto.
Qed.

(** C6: a command queued by [read] owns a share of the Session of its own.
    However the main thread's calls of [destroy] on the Session object fall
    between the steps of the command in flight, every step finds the
    Session live, and the command makes the progress and produces the
    events of its undisturbed run (which are those of the worker and the
    after-work function); no callback follows the terminal callback; and
    once the command is deleted its share is given back, as is the share of
    a destroyed object. *)
Theorem destroy_spares_command_in_flight (h : Heap) (obj : Bindings)
    (args : Args) (cmd : ReadCommand) (sched : list action) :
  alive h (m_session obj) = true ->
  rr_queued (read h obj args) = Some cmd ->
  let start := mkInFlight (rr_heap (read h obj args)) obj (Queued cmd) in
  use_count (if_heap start) (cc_session (rc_call cmd))
  = S (use_count h (m_session obj))
  /\ match runCommand (commandSteps sched) (Queued cmd) with
     | Some (ph, evs) =>
         exists s',
           runSchedule sched start = Some (s', evs)
           /\ if_phase s' = ph
           /\ callbacks (afterTerminal evs) = []
           /\ (ph <> Terminated ->
               alive (if_heap s') (cc_session (rc_call cmd)) = true)
           /\ (ph = Terminated ->
               use_count (if_heap s') (cc_session (rc_call cmd))
               = use_count h (m_session obj)
                 - (if destroys sched then 1 else 0))
     | None => runSchedule sched start = None
     end
  /\ forall cmd' evs,
      work cmd = Some (cmd', evs) ->
      exists n tail,
        runCommand n (Queued cmd)
        = Some (Terminated, evs ++ AfterWork (status cmd') :: tail)
        /\ snd <$> runQueued (if_heap start) cmd
           = Some (evs ++ AfterWork (status cmd') :: tail)
        /\ callbacks tail = [].
Proof.
  intros Halive Hq start.
  destruct (read_queued_call _ _ _ _ Hq) as (_ & _ & Hs & Hread).
  pose proof (use_count_copy h _ Halive) as Hc.
  destruct (alive_lookup _ _ Halive) as (l & k & Hl & Hk).
  assert (Hheap : if_heap start = shared_copy h (m_session obj))
    by (unfold start; rewrite Hread; reflexivity).
  rewrite Hheap, Hs. split; [exact Hc|]. split.
  - assert (Hown : owned l k start).
    { unfold owned, start. rewrite Hread.
      cbn [if_heap if_obj if_phase rr_heap inFlight].
      split; [intros ? [= <-]; congruence|]. split; [auto|].
      rewrite Hl in *. rewrite Hc. cbn [use_count]. rewrite Hk. cbn. lia. }
    pose proof (runSchedule_owned l k sched start Hown) as Hrun.
    change (if_phase start) with (Queued cmd) in Hrun.
    destruct (runCommand (commandSteps sched) (Queued cmd))
      as [[ph evs]|] eqn:Hsteps; [|exact Hrun].
    destruct Hrun as (s' & Hsched & Hph & (Hsess & Hobj' & Hcount) & Hobj).
    exists s'. split; [exact Hsched|]. split; [exact Hph|].
    split; [apply (runCommand_trace _ _ _ _ Hsteps)|].
    rewrite Hl in *. split.
    + intros Hlive. apply alive_use_count. rewrite Hcount, Hph.
      destruct ph; try contradiction; cbn; lia.
    + intros ->. rewrite Hcount, Hph, Hobj. cbn [if_obj start].
      rewrite Hl. cbn in Hk |- *. rewrite Hk.
      destruct (destroys sched); cbn; lia.
  - intros cmd' evs Hwork.
    destruct (work_steps _ _ _ Hwork) as [n Hn].
    exists (n + 1). eexists. split; [|split].
    + eapply runCommand_add; [exact Hn|]. cbn. by rewrite app_nil_r.
    + unfold runQueued. rewrite Hs.
      assert (Ha : alive (shared_copy h (m_session obj)) (m_session obj)
                   = true)
        by (apply alive_use_count; rewrite Hc; lia).
      rewrite Ha, Hwork. reflexivity.
    + apply callbacks_tail.
Qed.

End Properties.

(** ** The buffer pool *)

Lemma pool_create_invariant (n : nat) :
  BufferPool.invariant n (BufferPool.create n).
Proof.
  unfold BufferPool.invariant, BufferPool.create, BufferPool.checkedOut; cbn.
  split; [apply NoDup_seq|]. split; [intros; apply lookup_empty|].
  rewrite length_seq, map_size_empty. lia.
Qed.

Lemma pool_step_invariant (n : nat) (p : BufferPool.t) (o : BufferPool.op) :
  BufferPool.invariant n p -> BufferPool.invariant n (BufferPool.step p o).
Proof.
  destruct p as [free held].
  unfold BufferPool.invariant, BufferPool.checkedOut; cbn.
  intros (Hnodup & Hfree & Hsize).
  destruct o as [who|who buffer]; cbn.
  - unfold BufferPool.acquire; cbn.
    destruct free as [|b rest]; cbn; [auto|].
    apply NoDup_cons in Hnodup as [Hb Hrest].
    split; [assumption|]. split.
    + intros b' Hin. rewrite lookup_insert_ne by (intros ->; contradiction).
      apply Hfree. right. assumption.
    + rewrite map_size_insert_None by (apply Hfree; left).
      cbn in Hsize. lia.
  - unfold BufferPool.release; cbn.
    destruct (held !! buffer) as [owner|] eqn:Hheld; cbn; [|auto].
    destruct (Nat.eqb owner who); cbn; [|auto].
    assert (Hnotin : buffer ∉ free).
    { intros Hin. apply Hfree in Hin. congruence. }
    split; [apply NoDup_cons; auto|]. split.
    + intros b' [->|Hin]%elem_of_cons; [apply lookup_delete_eq|].
      rewrite lookup_delete_ne by (intros ->; contradiction).
      apply Hfree. assumption.
    + rewrite map_size_delete_Some by eauto.
      assert (size held <> 0).
      { intros H0%map_size_empty_inv. subst held.
        rewrite lookup_empty in Hheld. discriminate. }
      lia.
Qed.

Lemma pool_run_invariant (n : nat) (ops : list BufferPool.op) :
  forall p, BufferPool.invariant n p ->
            BufferPool.invariant n (BufferPool.run p ops).
Proof.
  unfold BufferPool.run.
  induction ops as [|o ops IH]; intros p Hp; cbn; [assumption|].
  apply IH, pool_step_invariant, Hp.
Qed.

(** C5: the process has one pool of [numBuffers] = 512 buffers.  After any
    sequence of acquisitions and releases by any transfers, the number of
    buffers checked out is at most 512 (with the free buffers it is exactly
    512).  An acquisition finds a free buffer exactly when fewer than 512
    are checked out, and then one more is; otherwise the caller is blocked
    and the pool is as it was: nothing fails and nothing is dropped, and
    after the next release an acquisition succeeds. *)
Theorem checked_out_never_exceeds_pool_size (ops : list BufferPool.op) :
  let p := BufferPool.run BufferPool.bufferPool ops in
  numBuffers = 512
  /\ BufferPool.checkedOut p <= numBuffers
  /\ length (BufferPool.available p) + BufferPool.checkedOut p = numBuffers
  /\ (forall who,
        match BufferPool.acquire who p with
        | BufferPool.Blocked =>
            BufferPool.checkedOut p = numBuffers
            /\ BufferPool.step p (BufferPool.Acquire who) = p
        | BufferPool.Got buffer p' =>
            BufferPool.checkedOut p < numBuffers
            /\ BufferPool.held p !! buffer = None
            /\ BufferPool.held p' !! buffer = Some who
            /\ BufferPool.checkedOut p' = S (BufferPool.checkedOut p)
        end)
  /\ (forall who buffer p' next,
        BufferPool.release who buffer p = Some p' ->
        exists buffer' p'', BufferPool.acquire next p' = BufferPool.Got buffer' p'').
Proof.
  intros p.
  pose proof (pool_run_invariant numBuffers ops _
                (pool_create_invariant numBuffers)) as Hinv.
  fold BufferPool.bufferPool in Hinv. fold p in Hinv.
  destruct Hinv as (Hnodup & Hfree & Hsize).
  split; [reflexivity|]. split; [lia|]. split; [exact Hsize|]. split.
  - intros who. unfold BufferPool.step, BufferPool.acquire.
    destruct (BufferPool.available p) as [|b rest] eqn:Hav; cbn.
    + cbn in Hsize. split; [lia|reflexivity].
    + cbn in Hsize. unfold BufferPool.checkedOut in *; cbn.
      assert (Hb : BufferPool.held p !! b = None) by (apply Hfree; left).
      rewrite lookup_insert_eq, map_size_insert_None by assumption.
      repeat split; try assumption; lia.
  - intros who buffer p' next. unfold BufferPool.release.
    destruct (BufferPool.held p !! buffer) as [owner|]; [|discriminate].
    destruct (Nat.eqb owner who); [|discriminate].
    intros [= <-]. unfold BufferPool.acquire; cbn. eauto.
Qed.

(** ** The properties at work on the concrete environment *)

Lemma streaming_reproduces_direct_decoding_witness :
  exists datas s tail,
    @readAll (Demo.env Created (inr [1; 2; 3; 4; 5]) None)
             Demo.heap Demo.obj Demo.readArgs
    = Some (InitCb okStatus (Some 5) :: datas ++ AfterWork s :: tail, Returned)
    /\ Forall (fun e => isDataCb e = true) datas
    /\ callbacks tail = []
    /\ dataBytes datas
       = fst (@decodeAll (Demo.env Created (inr [1; 2; 3; 4; 5]) None)
                         tt [1; 2; 3; 4; 5])
    /\ (snd (@decodeAll (Demo.env Created (inr [1; 2; 3; 4; 5]) None)
                        tt [1; 2; 3; 4; 5]) = None -> s = okStatus).
Proof.
  apply (@streaming_reproduces_direct_decoding
           (Demo.env Created (inr [1; 2; 3; 4; 5]) None)
           Demo.heap Demo.obj Demo.readArgs Demo.cmd tt false [1; 2; 3; 4; 5]).
  - cbn. lia.
  - reflexivity.
  - reflexivity.
  - reflexivity.
Defined.

Lemma empty_result_completes_without_data_witness :
  exists tail,
    @readAll (Demo.env Created (inr []) None) Demo.heap Demo.obj Demo.readArgs
    = Some (InitCb okStatus (Some 0) :: AfterWork okStatus :: tail, Returned)
    /\ callbacks tail = []
    /\ filter isDataCb (InitCb okStatus (Some 0) :: AfterWork okStatus :: tail)
       = [].
Proof.
  apply (@empty_result_completes_without_data
           (Demo.env Created (inr []) None)
           Demo.heap Demo.obj Demo.readArgs Demo.cmd tt false);
    reflexivity.
Defined.


(** C3 does not hold as it is stated.  An initialization that runs out of
    memory ([std::bad_alloc], which is a [std::exception] and no query
    exception) is reported through the init callback with code 400, which
    is not a 500-class Status.  And when the decoding of the fourth of five
    points throws mid-stream, the worker sets the status field to code 500,
    but the after-work function calls nothing back: the callbacks of the
    whole read are the init callback with the success status and the data
    callbacks, and none of them carries the 500. *)
Lemma internal_failures_not_reported_as_500 :
  (@init (Demo.env Created (inl (StdException "std::bad_alloc")) None)
         Demo.cmd
   = inl (StdException "std::bad_alloc")
   /\ clientError (StdException "std::bad_alloc") = false
   /\ @readAll (Demo.env Created (inl (StdException "std::bad_alloc")) None)
               Demo.heap Demo.obj Demo.readArgs
      = Some ([Log "Caught exception: std::bad_alloc";
               InitCb (mkStatus 400 "std::bad_alloc") None;
               AfterWork (mkStatus 400 "std::bad_alloc")],
              Returned)
   /\ ~ class5xx (mkStatus 400 "std::bad_alloc"))
  /\ (@work (Demo.env Created (inr [1; 2; 3; 4; 5]) (Some 4)) Demo.cmd
      = Some (mkReadCommand Demo.call (mkStatus 500 "decode"),
              [InitCb okStatus (Some 5);
               DataCb [Byte.x01; Byte.x02] false; DataCb [Byte.x03] true])
      /\ callbacks
           (snd (@afterWork (Demo.env Created (inr [1; 2; 3; 4; 5]) (Some 4))
                            Demo.heap
                            (mkReadCommand Demo.call (mkStatus 500 "decode"))))
         = []
      /\ exists evs,
          @readAll (Demo.env Created (inr [1; 2; 3; 4; 5]) (Some 4))
                   Demo.heap Demo.obj Demo.readArgs
          = Some (evs, Returned)
          /\ callbacks evs
             = [InitCb okStatus (Some 5);
                DataCb [Byte.x01; Byte.x02] false; DataCb [Byte.x03] true]).
Proof.
  split.
  - split; [reflexivity|]. split; [reflexivity|]. split; [reflexivity|].
    unfold class5xx; cbn. lia.
  - split; [reflexivity|]. split; [reflexivity|].
    eexists. split; reflexivity.
Qed.

Lemma read_failure_statuses_witness :
  (exists evs s,
      @readAll (Demo.env Created (inl Unknown) None)
               Demo.heap Demo.obj Demo.readArgs
      = Some (evs, Returned)
      /\ callbacks evs = [InitCb s None]
      /\ code s = 500)
  /\ (exists cmd',
        @work (Demo.env Created (inr [1; 2; 3; 4; 5]) (Some 4)) Demo.cmd
        = Some (cmd',
                InitCb okStatus (Some 5)
                :: [DataCb [Byte.x01; Byte.x02] false;
                    DataCb [Byte.x03] true])
        /\ code (status cmd') = 500
        /\ class5xx (status cmd')).
Proof.
  split.
  - apply (proj1 (@read_failure_statuses
                    (Demo.env Created (inl Unknown) None)
                    Demo.heap Demo.obj Demo.readArgs Demo.cmd
                    eq_refl eq_refl)
                 Unknown).
    reflexivity.
  - apply (proj2 (@read_failure_statuses
                    (Demo.env Created (inr [1; 2; 3; 4; 5]) (Some 4))
                    Demo.heap Demo.obj Demo.readArgs Demo.cmd
                    eq_refl eq_refl)
                 (@mkQuery (Demo.env Created (inr [1; 2; 3; 4; 5]) (Some 4))
                           tt false false [1; 2; 3; 4; 5] 0)
                 [DataCb [Byte.x01; Byte.x02] false; DataCb [Byte.x03] true]
                 (RuntimeError "decode"));
      reflexivity.
Defined.

Lemma destroy_spares_command_in_flight_witness :
  exists s',
    @runSchedule (Demo.env Created (inr [1; 2; 3]) None) Demo.schedule
      (@mkInFlight (Demo.env Created (inr [1; 2; 3]) None)
         (rr_heap (@read (Demo.env Created (inr [1; 2; 3]) None)
                         Demo.heap Demo.obj Demo.readArgs))
         Demo.obj (Queued Demo.cmd))
    = Some (s', [InitCb okStatus (Some 3);
                 DataCb [Byte.x01; Byte.x02] false; DataCb [Byte.x03] true;
                 AfterWork okStatus])
    /\ if_phase s' = Terminated
    /\ use_count (if_heap s') (Some 7) = 0.
Proof.
  destruct (@destroy_spares_command_in_flight
              (Demo.env Created (inr [1; 2; 3]) None)
              Demo.heap Demo.obj Demo.readArgs Demo.cmd Demo.schedule
              eq_refl eq_refl) as (_ & Hrun & _).
  change (@runCommand (Demo.env Created (inr [1; 2; 3]) None)
            (commandSteps Demo.schedule) (Queued Demo.cmd))
    with (Some (@Terminated (Demo.env Created (inr [1; 2; 3]) None),
                [InitCb okStatus (Some 3);
                 DataCb [Byte.x01; Byte.x02] false; DataCb [Byte.x03] true;
                 AfterWork okStatus])) in Hrun.
  destruct Hrun as (s' & Hsched & Hph & _ & _ & Hcount).
  exists s'. split; [exact Hsched|]. split; [exact Hph|].
  exact (Hcount eq_refl).
Defined.

Lemma checked_out_never_exceeds_pool_size_witness :
  BufferPool.checkedOut (BufferPool.run BufferPool.bufferPool Demo.poolOps) = 1
  /\ BufferPool.checkedOut (BufferPool.run BufferPool.bufferPool Demo.poolOps)
     <= numBuffers
  /\ match BufferPool.acquire 3
             (BufferPool.run BufferPool.bufferPool Demo.poolOps) with
     | BufferPool.Blocked => False
     | BufferPool.Got buffer p' => BufferPool.checkedOut p' = 2
     end.
Proof.
  destruct (checked_out_never_exceeds_pool_size Demo.poolOps)
    as (_ & Hle & _ & Hacq & _).
  split; [vm_compute; reflexivity|]. split; [exact Hle|].
  specialize (Hacq 3).
  destruct (BufferPool.acquire 3
              (BufferPool.run BufferPool.bufferPool Demo.poolOps))
    as [|buffer p'] eqn:Hgot.
  - vm_compute in Hgot. discriminate Hgot.
  - destruct Hacq as (_ & _ & _ & ->). vm_compute. reflexivity.
Defined.


Lemma global_initializes_once_witness :
  @global Demo.env0
          (@globalSeq Demo.env0 Demo.initialized [Demo.badGlobalArgs; []])
          Demo.globalArgs
  = (Demo.initialized,
     Threw (RuntimeError "Multiple global initializations attempted")).
Proof.
  apply (@global_initializes_once Demo.env0 noGlobals Demo.initialized
           Demo.globalArgs [Demo.badGlobalArgs; []] Demo.globalArgs).
  reflexivity.
Defined.

(** C9 does not hold as it is stated: in [global([], 1, {})] the arbiter is
    no string, so the validation fails; the string it is coerced to is no
    JSON, the exception of the parser leaves the call, and the process is
    not initialized. *)
Lemma global_object_arbiter_throws :
  IsString (at_ Demo2.objectArbiterArgs 2) = false
  /\ global_errMsg Demo2.objectArbiterArgs <> ""
  /\ @global Demo.env0 noGlobals Demo2.objectArbiterArgs
     = (@mkGlobals Demo.env0 false (Some 1) None [],
        Threw (RuntimeError "Error during parsing")).
Proof.
  split; [reflexivity|]. split; [discriminate|reflexivity].
Qed.

Lemma global_drops_validation_errors_witness :
  global_errMsg Demo2.coercedGlobalArgs <> ""
  /\ @global Demo.env0 noGlobals Demo2.coercedGlobalArgs
     = (@mkGlobals Demo.env0 true (Some 1) (Some "null") [], Returned).
Proof.
  destruct (@global_drops_validation_errors Demo.env0 noGlobals
              (VNumber one) (VNumber one) VNull eq_refl
              (or_introl eq_refl)) as (Hmsg & _ & Hglobal).
  split; [exact Hmsg|exact Hglobal].
Defined.

Lemma create_exception_is_only_logged_witness :
  exists line,
    @read (Demo.env (CreateThrew (RuntimeError "bad bounds")) (inr []) None)
          Demo.heap Demo.obj Demo.readArgs
    = mkReadResult Demo.heap [Log line] Returned None
    /\ @readAll (Demo.env (CreateThrew (RuntimeError "bad bounds")) (inr [])
                          None)
                Demo.heap Demo.obj Demo.readArgs
       = Some ([Log line], Returned)
    /\ callbacks [Log line] = [].
Proof.
  apply (@create_exception_is_only_logged
           (Demo.env (CreateThrew (RuntimeError "bad bounds")) (inr []) None)
           Demo.heap Demo.obj Demo.readArgs Demo.call
           (RuntimeError "bad bounds"));
    reflexivity.
Defined.

(** * More properties of the bindings *)

Section MoreProperties.

Context {env : Environment} {collaborators : Collaborators}.

(** ** Paths *)




(** ** Scale and offset *)

(** X3: the scale [files] and [read] hand on never has a zero component:
    after the three guarded assignments no component is [0.0] or [-0.0].
    Doing them again changes nothing, and a point without a zero component
    is left as it is. *)
Theorem clamped_scale_has_no_zero (p : Point) :
  isZero (x (clampScale p)) = false
  /\ isZero (y (clampScale p)) = false
  /\ isZero (z (clampScale p)) = false
  /\ clampScale (clampScale p) = clampScale p
  /\ (isZero (x p) = false -> isZero (y p) = false -> isZero (z p) = false ->
      clampScale p = p).
Proof.
  destruct p as [a b c]. unfold clampScale; cbn.
  destruct (isZero a) eqn:Ha; cbn; destruct (isZero b) eqn:Hb; cbn;
    destruct (isZero c) eqn:Hc; cbn;
    repeat (progress (rewrite ?Ha, ?Hb, ?Hc; cbn));
    repeat split; intros; try reflexivity; congruence.
Qed.

(** X4: only [null] leaves the scale and the offset of [files] unset.  When
    the arguments after the search string are left out they read
    [undefined], which is not [null]: [parsePoint] is applied to it, and for
    the scale its zero components are replaced. *)
Theorem files_parses_omitted_scale (obj : Bindings) (args : Args)
    (call : FilesCall) :
  length args <= 1 ->
  files obj args = inr call ->
  fc_scale call = Some (clampScale (parsePoint VUndefined))
  /\ fc_offset call = Some (parsePoint VUndefined).
Proof.
  intros Hlen. unfold files.
  assert (H1 : at_ args 1 = VUndefined)
    by (unfold at_; apply nth_overflow; lia).
  assert (H2 : at_ args 2 = VUndefined)
    by (unfold at_; apply nth_overflow; lia).
  rewrite H1, H2. destruct (parse _); [discriminate|].
  intros [= <-]. auto.
Qed.

(** ** Reads *)


(** X5: [read] lets an exception out to its caller only for a callback
    argument that is no function, the init callback being tested first;
    then it has produced nothing, queued nothing, and left the Session
    alone, whatever is wrong with the other arguments.  In particular
    nothing thrown by [ReadCommand::create] reaches the caller. *)
Theorem read_throws_only_for_callbacks (h : Heap) (obj : Bindings)
    (args : Args) (e : exn) :
  (rr_outcome (read h obj args) = Threw e <->
   (IsFunction (at_ args 6) = false /\ e = RuntimeError "Invalid initCb")
   \/ (IsFunction (at_ args 6) = true /\ IsFunction (at_ args 7) = false
       /\ e = RuntimeError "Invalid dataCb"))
  /\ (rr_outcome (read h obj args) = Threw e ->
      read h obj args = mkReadResult h [] (Threw e) None).
Proof.
  unfold read.
  destruct (IsFunction (at_ args 6)); cbn [negb];
    [destruct (IsFunction (at_ args 7)); cbn [negb];
     [destruct (negb (String.eqb (read_errMsg args) ""));
      [|destruct (ReadCommand_create _) as [e'| |];
        [destruct (isRuntimeError e')| |]]|]|];
    cbn; (split; [split|]);
    try (intros [= <-]; auto);
    try discriminate;
    try (intros [[? ?]|[? [? ?]]]; congruence).
Qed.


(** X7: the error message of [read] does not tell a wrong filter from a
    wrong schema: exchanging the schema and the filter argument leaves the
    message as it is (the test of the filter appends the sentence that names
    the schema). *)
Theorem read_errMsg_confuses_filter_and_schema (schemaArg filterArg : Value)
    (rest : Args) :
  read_errMsg (schemaArg :: filterArg :: rest)
  = read_errMsg (filterArg :: schemaArg :: rest).
Proof.
  unfold read_errMsg, at_; cbn [nth].
  destruct (IsString schemaArg), (IsUndefined schemaArg),
    (IsString filterArg), (IsUndefined filterArg); reflexivity.
Qed.

Lemma callbacks_app (evs1 evs2 : list event) :
  callbacks (evs1 ++ evs2) = callbacks evs1 ++ callbacks evs2.
Proof. apply filter_app. Qed.

Lemma callbacks_init (s : Status) (total : option nat) (evs : list event) :
  callbacks (InitCb s total :: evs) = InitCb s total :: callbacks evs.
Proof. reflexivity. Qed.

Lemma callbacks_afterWork (s : Status) (evs : list event) :
  callbacks (AfterWork s :: evs) = callbacks evs.
Proof. reflexivity. Qed.

(** X8: the callbacks of a read, in every case where it has a defined
    end: either none at all, or the init callback once, first, followed by
    data callbacks only; and data callbacks come only after an init callback
    that carried the success status. *)
Theorem read_callback_protocol (h : Heap) (obj : Bindings) (args : Args)
    (evs : list event) (out : outcome) :
  readAll h obj args = Some (evs, out) ->
  callbacks evs = []
  \/ exists s total datas,
      callbacks evs = InitCb s total :: datas
      /\ Forall (fun e => isDataCb e = true) datas
      /\ (datas <> [] -> s = okStatus).
Proof.
  unfold readAll.
  destruct (rr_queued (read h obj args)) as [cmd|] eqn:Hq.
  - destruct (read_queued_call _ _ _ _ Hq) as (_ & Hok & _ & ->).
    cbn [rr_heap rr_events rr_outcome app]. unfold runQueued.
    destruct (alive _ _); [|discriminate].
    destruct (work cmd) as [[cmd' evs0]|] eqn:Hwork; [|discriminate].
    cbn. intros [= <- _]. right.
    destruct (init cmd) as [e|q] eqn:Hinit.
    + destruct (work_init_failed _ _ Hinit) as (line & what & Hw).
      rewrite Hw in Hwork. injection Hwork as <- <-.
      eexists _, _, []. cbn. rewrite callbacks_tail.
      split; [reflexivity|]. split; [constructor|]. congruence.
    + rewrite (work_init_ok _ _ Hok Hinit) in Hwork.
      pose proof (stream_events_data (numPoints q) q) as Hdata.
      assert (Hshape : forall datas,
                Forall (fun e => isDataCb e = true) datas ->
                callbacks ((InitCb okStatus (Some (numPoints q)) :: datas)
                           ++ AfterWork (status cmd')
                           :: (if terminate cmd'
                               then [Log "Read was successfully terminated"]
                               else []))
                = InitCb okStatus (Some (numPoints q)) :: datas).
      { intros datas Hd.
        rewrite callbacks_app, callbacks_init, callbacks_afterWork,
          callbacks_tail, (callbacks_data _ Hd).
        by rewrite app_nil_r. }
      destruct (stream (numPoints q) q) as [datas|datas e| |];
        try discriminate; injection Hwork as <- <-;
        exists okStatus, (Some (numPoints q)), datas;
        (split; [apply Hshape; assumption|]); auto.
  - intros [= <- _]. clear Hq. unfold read.
    destruct (IsFunction (at_ args 6)); cbn [negb]; [|left; reflexivity].
    destruct (IsFunction (at_ args 7)); cbn [negb]; [|left; reflexivity].
    destruct (negb (String.eqb (read_errMsg args) "")).
    + right. eexists _, _, []. cbn.
      split; [reflexivity|]. split; [constructor|]. congruence.
    + destruct (ReadCommand_create _) as [e| |];
        [destruct (isRuntimeError e)| |]; left; reflexivity.
Qed.

(** ** Ownership of the Session *)

Lemma release_after_copy (h : Heap) (p : option nat) :
  alive h p = true -> shared_release (shared_copy h p) p = h.
Proof.
  intros (l & n & -> & Hl)%alive_lookup. cbn. rewrite Hl.
  rewrite lookup_insert_eq, insert_insert_eq. apply insert_id. assumption.
Qed.

(** X9: a read gives back what it takes.  A read that queues no command
    leaves the heap of Sessions as it was; a read on a live Session whose
    command runs to its end leaves it as it was before the read: the share
    the command took is returned when the command is deleted, and no other
    Session is touched. *)
Theorem read_returns_its_share (h : Heap) (obj : Bindings) (args : Args) :
  (rr_queued (read h obj args) = None -> rr_heap (read h obj args) = h)
  /\ (forall cmd h' evs,
        alive h (m_session obj) = true ->
        rr_queued (read h obj args) = Some cmd ->
        runQueued (rr_heap (read h obj args)) cmd = Some (h', evs) ->
        h' = h).
Proof.
  split.
  - unfold read.
    destruct (IsFunction (at_ args 6)); cbn [negb]; [|reflexivity].
    destruct (IsFunction (at_ args 7)); cbn [negb]; [|reflexivity].
    destruct (negb (String.eqb (read_errMsg args) "")); [reflexivity|].
    destruct (ReadCommand_create _) as [e| |];
      [destruct (isRuntimeError e)| |]; try reflexivity. intros [=].
  - intros cmd h' evs Halive Hq.
    destruct (read_queued_call _ _ _ _ Hq) as (_ & _ & Hs & ->).
    cbn [rr_heap]. unfold runQueued, afterWork. rewrite Hs.
    destruct (alive (shared_copy h (m_session obj)) (m_session obj));
      [|discriminate].
    destruct (work cmd) as [[cmd' evs0]|] eqn:Hwork; [|discriminate].
    intros [= <- _]. rewrite (work_rc_call _ _ _ Hwork), Hs.
    apply release_after_copy. assumption.
Qed.

(** X10: [destroy] leaves the object without a Session and gives up exactly
    the object's own share: the use count of its Session drops by one, no
    other Session is touched, and a second [destroy] does nothing.  After
    it [info], which dereferences the pointer without a test, has no defined
    result. *)
Theorem destroy_gives_up_one_share (h : Heap) (obj : Bindings) :
  m_session (snd (destroy h obj)) = None
  /\ destroy (fst (destroy h obj)) (snd (destroy h obj)) = destroy h obj
  /\ use_count (fst (destroy h obj)) (m_session obj)
     = use_count h (m_session obj) - 1
  /\ (forall p, p <> m_session obj ->
                use_count (fst (destroy h obj)) p = use_count h p)
  /\ info (fst (destroy h obj)) (snd (destroy h obj)) = None.
Proof.
  unfold destroy; cbn [fst snd m_session].
  split; [reflexivity|]. split; [reflexivity|].
  split; [apply use_count_release|]. split; [|reflexivity].
  intros p Hp. destruct p as [l'|]; [|reflexivity].
  destruct (m_session obj) as [l|]; [|reflexivity].
  assert (Hne : l <> l') by congruence.
  cbn. destruct (h !! l) as [[|[|n]]|];
    rewrite ?lookup_delete_ne, ?lookup_insert_ne by assumption; reflexivity.
Qed.

(** ** The cursor *)

(** X11: [readPoint] reads inside the ids exactly when the cursor is before
    the end.  As long as the cursor has not passed the end, [eof] tells
    whether [readPoint] may be called; a cursor that has passed the end is
    not at [eof] (the test is an equality) although a read there is out of
    range. *)
Theorem readPoint_defined_before_the_end (q : EntwineReadQuery)
    (schema : Schema) (rasterize : bool) :
  (is_Some (readPoint q schema rasterize) <-> index q < numPoints q)
  /\ (index q <= numPoints q ->
      (eof q = false <-> is_Some (readPoint q schema rasterize)))
  /\ (numPoints q < index q ->
      eof q = false /\ readPoint q schema rasterize = None).
Proof.
  assert (Hdef : is_Some (readPoint q schema rasterize)
                 <-> index q < numPoints q).
  { unfold readPoint, numPoints. rewrite <- lookup_lt_is_Some.
    destruct (m_ids q !! index q); split; intros [? ?]; try discriminate;
      eauto. }
  split; [exact Hdef|]. unfold eof. split.
  - intros Hle. rewrite Hdef, Nat.eqb_neq. lia.
  - intros Hgt. split; [apply Nat.eqb_neq; lia|].
    destruct (readPoint q schema rasterize) eqn:Hr; [|reflexivity].
    assert (index q < numPoints q) by (apply Hdef; eauto). lia.
Qed.

(** ** Construction *)

(** X12: once [global] has run to its end, [construct] is defined whatever
    was called since: the new object is the only owner of a Session at an
    address no live Session has, the other Sessions keep their owners, and
    destroying the object at once gives the heap of Sessions back as it
    was.  Before any [global], constructing is undefined (it dereferences
    the stage factory).  Nothing is said of [info] on the new object, whose
    Session is not bound to a dataset yet. *)
Theorem construct_after_global (g g1 : Globals) (args : Args)
    (later : list Args) (h : Heap) :
  global g args = (g1, Returned) ->
  construct noGlobals h = None
  /\ exists h' obj,
      construct (globalSeq g1 later) h = Some (h', obj)
      /\ use_count h (m_session obj) = 0
      /\ use_count h' (m_session obj) = 1
      /\ (forall p, p <> m_session obj -> use_count h' p = use_count h p)
      /\ destroy h' obj = (h, mkBindings None).
Proof.
  intros Hfirst. apply global_success in Hfirst.
  split; [reflexivity|].
  unfold construct. rewrite (globalSeq_initialized _ later Hfirst), Hfirst.
  pose proof (is_fresh (dom h)) as Hfresh.
  apply not_elem_of_dom in Hfresh. set (l := fresh (dom h)) in *.
  eexists _, _. split; [reflexivity|]. cbn [m_session].
  split; [cbn; by rewrite Hfresh|].
  split; [cbn; by rewrite lookup_insert_eq|].
  split.
  - intros [l'|] Hp; [|reflexivity]. cbn.
    rewrite lookup_insert_ne by congruence. reflexivity.
  - unfold destroy; cbn. rewrite lookup_insert_eq.
    by rewrite delete_insert_id.
Qed.

(** ** Creating a Session *)

(** X13: [create] with two arguments, the second a function, on an object
    whose Session is live, calls that function exactly once, with a Status,
    and returns.  For a name that is no string the Status is 400, delivered
    at once, and nothing is queued, so [Session::initialize] is not called
    (this needs no live Session); for a string the work is queued with the
    name, cut at its first NUL, and the paths of the process, and the Status
    is success when [Session::initialize] finds the dataset and 404 "Not
    found" when it does not.  On an object that was destroyed the worker
    dereferences a null pointer: a [create] with a string name has no
    defined end there. *)
Theorem create_calls_back_once (g : Globals) (h : Heap) (obj : Bindings)
    (args : Args) :
  Length args = 2 ->
  IsFunction (at_ args 1) = true ->
  (IsString (at_ args 0) = false ->
   sy_queued (create g obj args) = None
   /\ createAll g h obj args
      = Some ([Print ("Client error: " +:+ tab +:+ "'name' must be a string");
               Call (at_ args 1)
                    [ArgStatus
                       (mkStatus 400 (tab +:+ "'name' must be a string"))]],
              Returned))
  /\ (IsString (at_ args 0) = true ->
      exists d,
        sy_queued (create g obj args) = Some d
        /\ cd_session d = m_session obj
        /\ cd_name d = ToString (at_ args 0)
        /\ cd_paths d = paths g
        /\ (alive h (m_session obj) = true ->
            createAll g h obj args
            = Some ([Call (at_ args 1)
                       [ArgStatus match Session_initialize d with
                                  | inr true => okStatus
                                  | inr false => mkStatus 404 "Not found"
                                  | inl e => safe_status e
                                  end]],
                    Returned))
        /\ (alive h (m_session obj) = false ->
            createAll g h obj args = None)).
Proof.
  intros Hlen Hcb. unfold createAll, create, create_errMsg.
  rewrite Hlen, Hcb. cbn [Nat.eqb negb].
  destruct (IsString (at_ args 0)) eqn:Hname;
    cbn [negb String.length Nat.eqb sy_effects sy_queued sy_outcome app].
  - split; [discriminate|]. intros _.
    set (d := mkCreateData _ _ _ _ _ _ _). exists d.
    split; [reflexivity|]. split; [reflexivity|].
    split; [reflexivity|]. split; [reflexivity|].
    unfold create_work. cbn [d cd_session].
    split; intros ->; [|reflexivity].
    unfold create_after.
    destruct (Session_initialize d) as [e|[|]]; reflexivity.
  - split; [auto|discriminate].
Qed.

(** X14: [create] lets an exception out to its caller in two cases, tested
    in this order: the number of arguments is not two, or the second is no
    function.  Nothing has been printed, called or queued then, also for a
    name that is no string, and whatever has become of the Session. *)
Theorem create_throws_iff (g : Globals) (h : Heap) (obj : Bindings)
    (args : Args) (e : exn) :
  ((exists effects, createAll g h obj args = Some (effects, Threw e)) <->
   (Length args <> 2
    /\ e = RuntimeError "Wrong number of arguments to create")
   \/ (Length args = 2 /\ IsFunction (at_ args 1) = false
       /\ e = RuntimeError "Invalid create CB"))
  /\ ((exists effects, createAll g h obj args = Some (effects, Threw e)) ->
      createAll g h obj args = Some ([], Threw e)
      /\ create g obj args = mkSync [] (Threw e) None).
Proof.
  unfold createAll, create.
  destruct (Nat.eqb_spec (Length args) 2) as [Hlen|Hlen]; cbn [negb].
  - destruct (IsFunction (at_ args 1)); cbn [negb].
    + assert (Hno : forall effects,
                (let r :=
                   if negb (Nat.eqb (String.length (create_errMsg args)) 0)
                   then
                     mkSync
                       [Print ("Client error: " +:+ create_errMsg args);
                        Call (at_ args 1)
                             [ArgStatus (mkStatus 400 (create_errMsg args))]]
                       Returned None
                   else
                     mkSync [] Returned
                       (Some (mkCreateData (m_session obj)
                                (ToString (at_ args 0)) (paths g)
                                (outerScope g) (cache g) (at_ args 1)
                                okStatus))
                 in
                 match sy_queued r with
                 | Some d =>
                     match create_work h d with
                     | Some d' =>
                         Some (sy_effects r ++ create_after d', sy_outcome r)
                     | None => None
                     end
                 | None => Some (sy_effects r, sy_outcome r)
                 end) <> Some (effects, Threw e)).
      { intros effects.
        destruct (negb (Nat.eqb (String.length (create_errMsg args)) 0));
          cbn; [discriminate|].
        destruct (create_work h _); discriminate. }
      split; [split|].
      * intros [effects Heff]. exfalso. exact (Hno effects Heff).
      * intros [[? _]|(_ & [=] & _)]; contradiction.
      * intros [effects Heff]. exfalso. exact (Hno effects Heff).
    + cbn. split; [split|].
      * intros [effects [= _ <-]]. auto.
      * intros [[? _]|(_ & _ & ->)]; [contradiction|eauto].
      * intros [effects [= _ <-]]. auto.
  - cbn. split; [split|].
    + intros [effects [= _ <-]]. auto.
    + intros [[_ ->]|(? & _)]; [eauto|contradiction].
    + intros [effects [= _ <-]]. auto.
Qed.

(** ** Hierarchy queries *)


(** X16: [hierarchy] lets an exception out to its caller in two cases: the
    callback is no function, or, with a callback and a query that is an
    object, [HierarchyCommand::create] throws (its call stands outside any
    handler, unlike that of [ReadCommand::create] in [read]).  The callback
    is not called then.  With a callback and a query that is no object the
    callback is called once, with the Status 400 alone. *)
Theorem hierarchy_lets_create_exceptions_out (obj : Bindings) (args : Args)
    (e : exn) :
  (snd (hierarchyAll obj args) = Threw e <->
   (IsFunction (at_ args 1) = false /\ e = RuntimeError "Invalid cb")
   \/ (IsFunction (at_ args 1) = true /\ IsObject (at_ args 0) = true
       /\ HierarchyCommand_create (m_session obj) (at_ args 0) (at_ args 1)
          = CreateThrew e))
  /\ (snd (hierarchyAll obj args) = Threw e ->
      fst (hierarchyAll obj args) = [])
  /\ (IsFunction (at_ args 1) = true -> IsObject (at_ args 0) = false ->
      hierarchyAll obj args
      = ([Call (at_ args 1)
               [ArgStatus (mkStatus 400 (tab +:+ "Invalid query type"))]],
         Returned)).
Proof.
  unfold hierarchyAll, hierarchy, hierarchy_errMsg.
  destruct (IsFunction (at_ args 1)); cbn [negb].
  - destruct (IsObject (at_ args 0)); cbn.
    + destruct (HierarchyCommand_create _ _ _) as [e'| |]; cbn;
        (split; [split|split]); try discriminate;
        try (intros [= <-]; auto);
        try (intros [[[=] _]|(_ & _ & [=])]; subst; reflexivity);
        try (intros [[[=] _]|(_ & _ & [=])]).
    + split; [split|split]; try discriminate; auto.
      intros [[[=] _]|(_ & [=] & _)].
  - cbn. split; [split|split]; try discriminate; auto.
    + intros [= <-]. auto.
    + intros [[_ ->]|([=] & _)]. reflexivity.
Qed.

(** ** The launcher script *)

(** X17: the launcher starts the child exactly when it is given two
    positional arguments; with any other number it prints the usage line
    and exits with code 1 without making a monitor or setting the title. *)
Theorem forever_needs_two_arguments (argv : Forever.Argv) :
  (In Forever.Start (Forever.main argv)
   <-> length (Forever.underscore argv) = 2)
  /\ (length (Forever.underscore argv) <> 2 ->
      Forever.main argv
      = [Forever.ConsoleError "Usage: forever SOURCE_FILE COMPONENT";
         Forever.Exit 1]).
Proof.
  unfold Forever.main.
  destruct (Nat.eqb_spec (length (Forever.underscore argv)) 2) as [Hlen|Hlen];
    cbn [negb].
  - split; [|contradiction]. split; [auto|]. intros _. cbn. tauto.
  - split; [|reflexivity]. split; [|contradiction].
    cbn. intros [[=]|[[=]|[]]].
Qed.

(** X18: the title the launcher sets does not come from the COMPONENT
    argument: it is made from [argv[1]], the option with key 1, not from
    [argv._[1]].  Two command lines that differ in the component only run
    the same steps, and without an option of that key the title is
    "undefined_forever". *)
Theorem forever_title_ignores_component (file component component' : Value)
    (options : gmap string Value) :
  Forever.main (Forever.mkArgv [file; component] options)
  = Forever.main (Forever.mkArgv [file; component'] options)
  /\ (options !! "1" = None ->
      Forever.main (Forever.mkArgv [file; component] options)
      = [Forever.SetTitle "undefined_forever";
         Forever.NewMonitor file true;
         Forever.On "watch:restart"; Forever.On "restart";
         Forever.On "exit:code"; Forever.On "exit";
         Forever.Start]).
Proof.
  split; [reflexivity|].
  intros Hnone. unfold Forever.main, Forever.get; cbn. rewrite Hnone.
  reflexivity.
Qed.

End MoreProperties.

(** ** These properties at work on the concrete environment *)

Lemma clamped_scale_has_no_zero_witness :
  clampScale (mkPoint Demo.two Demo.two Demo.two)
  = mkPoint Demo.two Demo.two Demo.two.
Proof.
  apply (clamped_scale_has_no_zero (mkPoint Demo.two Demo.two Demo.two));
    reflexivity.
Defined.

Lemma files_parses_omitted_scale_witness :
  fc_scale Demo2.shortFilesCall
  = Some (clampScale (@parsePoint Demo.env0 VUndefined))
  /\ fc_offset Demo2.shortFilesCall = Some (@parsePoint Demo.env0 VUndefined).
Proof.
  apply (files_parses_omitted_scale (env := Demo.env0)
           Demo.obj Demo2.shortFilesArgs Demo2.shortFilesCall).
  - cbn. lia.
  - reflexivity.
Defined.

Lemma read_throws_only_for_callbacks_witness :
  @read Demo.env0 Demo.heap Demo.obj Demo2.noCallbackArgs
  = mkReadResult Demo.heap [] (Threw (RuntimeError "Invalid initCb")) None.
Proof.
  apply (proj2 (read_throws_only_for_callbacks (env := Demo.env0)
                  Demo.heap Demo.obj Demo2.noCallbackArgs
                  (RuntimeError "Invalid initCb"))).
  reflexivity.
Defined.


Lemma read_callback_protocol_witness :
  callbacks Demo2.events3 = []
  \/ exists s total datas,
      callbacks Demo2.events3 = InitCb s total :: datas
      /\ Forall (fun e => isDataCb e = true) datas
      /\ (datas <> [] -> s = okStatus).
Proof.
  apply (read_callback_protocol (env := Demo2.env3)
           Demo.heap Demo.obj Demo.readArgs Demo2.events3 Returned).
  reflexivity.
Defined.

Lemma read_returns_its_share_witness :
  rr_heap (@read Demo2.env3 Demo.heap Demo.obj Demo.readArgs)
  <> Demo.heap
  /\ forall h' evs,
      @runQueued Demo2.env3
        (rr_heap (@read Demo2.env3 Demo.heap Demo.obj Demo.readArgs))
        Demo.cmd
      = Some (h', evs) ->
      h' = Demo.heap.
Proof.
  split.
  - vm_compute. discriminate.
  - intros h' evs.
    apply (proj2 (read_returns_its_share (env := Demo2.env3)
                    Demo.heap Demo.obj Demo.readArgs)
                 Demo.cmd h' evs);
      reflexivity.
Defined.

Lemma destroy_gives_up_one_share_witness :
  use_count (fst (destroy Demo.heap Demo.obj)) (Some 7) = 0
  /\ use_count (fst (destroy (<[9 := 2]> Demo.heap) Demo.obj)) (Some 9) = 2.
Proof.
  destruct (destroy_gives_up_one_share
              (env := Demo.env0)
              (collaborators := Demo2.collaborators (inr true) Created
                                  (inr ""))
              Demo.heap Demo.obj) as (_ & _ & Hown & _).
  destruct (destroy_gives_up_one_share
              (env := Demo.env0)
              (collaborators := Demo2.collaborators (inr true) Created
                                  (inr ""))
              (<[9 := 2]> Demo.heap) Demo.obj) as (_ & _ & _ & Hother & _).
  split; [exact Hown|].
  rewrite (Hother (Some 9)); [reflexivity|discriminate].
Defined.

Lemma readPoint_defined_before_the_end_witness :
  @eof Demo2.env3 Demo2.pastEnd = false
  /\ @readPoint Demo2.env3 Demo2.pastEnd tt false = None.
Proof.
  apply (readPoint_defined_before_the_end (env := Demo2.env3)
           Demo2.pastEnd tt false).
  cbn. lia.
Defined.

Lemma construct_after_global_witness :
  exists h' obj,
    @construct Demo.env0 (@globalSeq Demo.env0 Demo.initialized [[]])
               Demo.heap
    = Some (h', obj)
    /\ use_count h' (m_session obj) = 1
    /\ destroy h' obj = (Demo.heap, mkBindings None).
Proof.
  destruct (construct_after_global
              (env := Demo.env0)
              noGlobals Demo.initialized Demo.globalArgs [[]] Demo.heap
              eq_refl)
    as (_ & h' & obj & Hc & _ & Hone & _ & Hd).
  exists h', obj. auto.
Defined.

Lemma create_calls_back_once_witness :
  @createAll Demo.env0 (Demo2.collaborators (inr false) Created (inr ""))
             Demo.initialized Demo.heap Demo.obj Demo2.createArgs
  = Some ([Call Demo.cb1 [ArgStatus (mkStatus 404 "Not found")]], Returned).
Proof.
  destruct (proj2 (create_calls_back_once
                     (env := Demo.env0)
                     (collaborators := Demo2.collaborators (inr false) Created
                                         (inr ""))
                     Demo.initialized Demo.heap Demo.obj Demo2.createArgs
                     eq_refl eq_refl)
                  eq_refl)
    as (d & Hq & _ & _ & _ & Hlive & _).
  injection Hq as <-. exact (Hlive eq_refl).
Defined.


Lemma hierarchy_lets_create_exceptions_out_witness :
  @hierarchyAll Demo.env0
     (Demo2.collaborators (inr true) (CreateThrew (RuntimeError "no depth"))
                          (inr ""))
     Demo.obj Demo2.hierarchyArgs
  = ([], Threw (RuntimeError "no depth")).
Proof.
  pose proof (hierarchy_lets_create_exceptions_out
                (env := Demo.env0)
                (collaborators :=
                   Demo2.collaborators (inr true)
                     (CreateThrew (RuntimeError "no depth")) (inr ""))
                Demo.obj Demo2.hierarchyArgs (RuntimeError "no depth"))
    as (Hiff & Hnone & _).
  assert (Hout : snd (@hierarchyAll Demo.env0
                        (Demo2.collaborators (inr true)
                           (CreateThrew (RuntimeError "no depth")) (inr ""))
                        Demo.obj Demo2.hierarchyArgs)
                 = Threw (RuntimeError "no depth")).
  { apply Hiff. right. repeat split. }
  specialize (Hnone Hout).
  destruct (hierarchyAll _ _) as [effects out]. cbn in *. congruence.
Defined.

Lemma forever_needs_two_arguments_witness :
  @Forever.main Demo.env0 Demo2.shortArgv
  = [Forever.ConsoleError "Usage: forever SOURCE_FILE COMPONENT";
     Forever.Exit 1].
Proof.
  apply (proj2 (forever_needs_two_arguments (env := Demo.env0)
                  Demo2.shortArgv)).
  cbn. lia.
Defined.

Lemma forever_title_ignores_component_witness :
  @Forever.main Demo.env0 Demo2.argv
  = [Forever.SetTitle "undefined_forever";
     Forever.NewMonitor (VString "app.js") true;
     Forever.On "watch:restart"; Forever.On "restart";
     Forever.On "exit:code"; Forever.On "exit";
     Forever.Start].
Proof.
  apply (proj2 (forever_title_ignores_component (env := Demo.env0)
                  (VString "app.js") (VString "db") (VString "db") ∅)).
  reflexivity.
Defined.

Lemma create_throws_iff_witness :
  @createAll Demo.env0 (Demo2.collaborators (inr true) Created (inr ""))
             Demo.initialized Demo.heap Demo.obj [VNumber one; VNull]
  = Some ([], Threw (RuntimeError "Invalid create CB")).
Proof.
  destruct (create_throws_iff
              (env := Demo.env0)
              (collaborators := Demo2.collaborators (inr true) Created
                                  (inr ""))
              Demo.initialized Demo.heap Demo.obj [VNumber one; VNull]
              (RuntimeError "Invalid create CB")) as [Hiff Hnone].
  apply Hnone, Hiff. right. repeat split.
Defined.

